(** * Dormant users: a shallow embedding of [dormant_users.py]

    The program audits GitHub organizations: it walks paginated GraphQL
    collections (repositories, branches, commit history, issues, pull
    requests, members), keeps for every login the latest timestamp seen, and
    writes one CSV report per organization.

    Strings are Rocq [string]s read as UTF-8: Python compares [str] values
    code point by code point, and the byte-wise order of UTF-8 text is the
    same order. *)

From Stdlib Require Import ZArith List String Ascii Bool Lia.
From stdpp Require Import base list strings sorting gmap.

Local Open Scope string_scope.
Local Open Scope list_scope.

(** ** Python dictionaries with string keys

    A [dict] keeps its keys in insertion order, and assigning to a key that
    is already present keeps the key where it is.  The report writer iterates
    over a dictionary, so the order is part of the model. *)

Module Dict.

Definition dict (V : Type) := list (string * V).

Definition empty {V} : dict V := [].

(** [d.get(k)], and [d[k]] when the key is known to be present. *)
Fixpoint get {V} (d : dict V) (k : string) : option V :=
  match d with
  | [] => None
  | (k', v) :: d' => if String.eqb k k' then Some v else get d' k
  end.

(** [k in d] *)
Definition mem {V} (d : dict V) (k : string) : bool :=
  match get d k with Some _ => true | None => false end.

(** [d[k] = v] *)
Fixpoint set {V} (d : dict V) (k : string) (v : V) : dict V :=
  match d with
  | [] => [(k, v)]
  | (k', v') :: d' =>
      if String.eqb k k' then (k', v) :: d' else (k', v') :: set d' k v
  end.

(** [d.keys()] and [d.items()] *)
Definition keys {V} (d : dict V) : list string := map fst d.
Definition items {V} (d : dict V) : list (string * V) := d.

(** A Python dictionary holds every key once. *)
Definition wf {V} (d : dict V) : Prop := NoDup (keys d).

End Dict.

Abbreviation dict := Dict.dict.

(** ** Keeping the latest timestamp

    [if login not in activity or activity[login] < date: activity[login] = date]
    (lines 116-117, 136-137, 157-158 and, on the organization's mapping,
    198-199).  [<] on two [str] values is the lexicographic order. *)

Definition keep_latest (activity : dict string) (login date : string)
  : dict string :=
  if negb (Dict.mem activity login)
     || match Dict.get activity login with
        | Some old => String.ltb old date
        | None => false
        end
  then Dict.set activity login date
  else activity.

(** [for user, date in act.items(): ...] of lines 197-199: the merge of one
    mapping into another. *)
Definition merge_activity (into from : dict string) : dict string :=
  fold_left (fun acc '(user, date) => keep_latest acc user date)
            (Dict.items from) into.

(** The later of two timestamps in the order [<] of strings, and the same on
    timestamps that may be missing. *)
Definition str_max (a b : string) : string := if String.ltb a b then b else a.

Definition opt_max (o1 o2 : option string) : option string :=
  match o1, o2 with
  | None, o => o
  | o, None => o
  | Some a, Some b => Some (str_max a b)
  end.

(** What a list of [(login, date)] events says about one login: the latest
    date it carries for that login. *)
Definition latest_in (events : list (string * string)) (login : string)
  : option string :=
  fold_left (fun acc '(k, v) => if String.eqb login k then opt_max acc (Some v) else acc)
            events None.

(** ** Dates and times

    A [datetime] with [tzinfo=timezone.utc]: the fields Python stores.  Two
    such values are compared field by field. *)

Record datetime := mk_datetime {
  year : Z; month : Z; day : Z;
  hour : Z; minute : Z; second : Z; microsecond : Z
}.

Fixpoint lex_compare (xs ys : list Z) : comparison :=
  match xs, ys with
  | [], [] => Eq
  | [], _ :: _ => Lt
  | _ :: _, [] => Gt
  | x :: xs', y :: ys' =>
      match Z.compare x y with Eq => lex_compare xs' ys' | c => c end
  end.

Definition fields (dt : datetime) : list Z :=
  [year dt; month dt; day dt; hour dt; minute dt; second dt; microsecond dt].

(** [a >= b] *)
Definition datetime_ge (a b : datetime) : bool :=
  match lex_compare (fields a) (fields b) with Lt => false | _ => true end.

(** The calendar of [datetime]: proleptic Gregorian, day 1 is 0001-01-01. *)
Definition is_leap (y : Z) : bool :=
  (y mod 4 =? 0)%Z && (negb (y mod 100 =? 0)%Z || (y mod 400 =? 0)%Z).

Definition days_in_month_table : list Z :=
  [31; 28; 31; 30; 31; 30; 31; 31; 30; 31; 30; 31]%Z.

Definition days_in_month (y m : Z) : Z :=
  if (m =? 2)%Z && is_leap y then 29%Z
  else nth (Z.to_nat (m - 1)) days_in_month_table 0%Z.

Definition days_before_year (y : Z) : Z :=
  let p := (y - 1)%Z in (p * 365 + p / 4 - p / 100 + p / 400)%Z.

Definition days_before_month (y m : Z) : Z :=
  (fold_right Z.add 0 (firstn (Z.to_nat (m - 1)) days_in_month_table)
   + (if (2 <? m)%Z && is_leap y then 1 else 0))%Z.

Definition ymd2ord (y m d : Z) : Z :=
  (days_before_year y + days_before_month y m + d)%Z.

Definition MAXORDINAL : Z := 3652059.

(** The month and day of the [n]-th day (from 0) of a year. *)
Fixpoint month_day (leap : bool) (months : list Z) (m n : Z) : Z * Z :=
  match months with
  | [] => (m, n + 1)%Z
  | len :: rest =>
      let len := (if (m =? 2)%Z && leap then len + 1 else len)%Z in
      if (n <? len)%Z then (m, n + 1)%Z
      else month_day leap rest (m + 1)%Z (n - len)%Z
  end.

Definition ord2ymd (ordinal : Z) : Z * Z * Z :=
  let n := (ordinal - 1)%Z in
  let n400 := (n / 146097)%Z in
  let n := (n mod 146097)%Z in
  let n100 := (n / 36524)%Z in
  let n := (n mod 36524)%Z in
  let n4 := (n / 1461)%Z in
  let n := (n mod 1461)%Z in
  let n1 := (n / 365)%Z in
  let n := (n mod 365)%Z in
  let y := (n400 * 400 + 1 + n100 * 100 + n4 * 4 + n1)%Z in
  if (n1 =? 4)%Z || (n100 =? 4)%Z then (y - 1, 12, 31)%Z
  else
    let '(m, d) := month_day (is_leap y) days_in_month_table 1 n in
    (y, m, d).

(** Fixed-width decimal numbers, as [%02d], [%04d] and [%06d] print a field
    that is within its range. *)
Definition digit (n : Z) : ascii := ascii_of_N (Z.to_N (48 + n mod 10)).

Fixpoint dec (width : nat) (n : Z) : string :=
  match width with
  | O => ""
  | S w => dec w (n / 10) ++ String (digit n) ""
  end.

(** [dt.strftime("%d-%m-%Y")] *)
Definition strftime_dmY (dt : datetime) : string :=
  dec 2 (day dt) ++ "-" ++ dec 2 (month dt) ++ "-" ++ dec 4 (year dt).

(** [dt.strftime('%Y%m%d_%H%M%S')] *)
Definition strftime_stamp (dt : datetime) : string :=
  dec 4 (year dt) ++ dec 2 (month dt) ++ dec 2 (day dt) ++ "_"
  ++ dec 2 (hour dt) ++ dec 2 (minute dt) ++ dec 2 (second dt).

(** [dt.isoformat()] of a UTC value: the microseconds are printed when they
    are not zero. *)
Definition isoformat (dt : datetime) : string :=
  dec 4 (year dt) ++ "-" ++ dec 2 (month dt) ++ "-" ++ dec 2 (day dt) ++ "T"
  ++ dec 2 (hour dt) ++ ":" ++ dec 2 (minute dt) ++ ":" ++ dec 2 (second dt)
  ++ (if (microsecond dt =? 0)%Z then "" else "." ++ dec 6 (microsecond dt))
  ++ "+00:00".

(** [str(b).lower()] *)
Definition str_lower_bool (b : bool) : string := if b then "true" else "false".

(** [s[:n]], on text whose first [n] characters are ASCII: a [string] here
    is a sequence of bytes, Python's a sequence of code points. *)
Fixpoint slice_to (n : nat) (s : string) : string :=
  match n, s with
  | S n', String c s' => String c (slice_to n' s')
  | _, _ => ""
  end.

(** *** [datetime.strptime(s, "%Y-%m-%dT%H:%M:%S")]

    CPython turns the format into a regular expression, one group per
    directive, and matches it at the start of the string ignoring case:
<<
      %Y  \d\d\d\d                          %H  2[0-3]|[0-1]\d|\d
      %m  1[0-2]|0[1-9]|[1-9]               %M  [0-5]\d|\d
      %d  3[0-1]|[1-2]\d|0[1-9]|[1-9]| [1-9]  %S  6[0-1]|[0-5]\d|\d
>>
    Every alternative is a fixed sequence of character classes, so a
    directive is a list of alternatives and an alternative a list of
    classes; matching returns the ways to match in the order a backtracking
    matcher tries them.  Digits are the ASCII digits: the other decimal
    digits of Unicode, which [\d] also accepts, are not modelled. *)

Definition char_class := ascii -> bool.

Definition code (c : ascii) : N := N_of_ascii c.

Definition between (lo hi : ascii) : char_class :=
  fun c => (code lo <=? code c)%N && (code c <=? code hi)%N.

Definition exactly (a : ascii) : char_class := fun c => Ascii.eqb a c.

Definition any_digit : char_class := between "0" "9".

Definition alternative := list char_class.

Fixpoint match_alternative (alt : alternative) (s : string)
  : option (string * string) :=
  match alt with
  | [] => Some ("", s)
  | cls :: alt' =>
      match s with
      | String c s' =>
          if cls c then
            match match_alternative alt' s' with
            | Some (text, rest) => Some (String c text, rest)
            | None => None
            end
          else None
      | EmptyString => None
      end
  end.

Definition directive := list alternative.

Definition match_directive (d : directive) (s : string)
  : list (string * string) :=
  omap (fun alt => match_alternative alt s) d.

Definition re_Y : directive := [[any_digit; any_digit; any_digit; any_digit]].
Definition re_m : directive :=
  [[exactly "1"; between "0" "2"]; [exactly "0"; between "1" "9"]; [between "1" "9"]].
Definition re_d : directive :=
  [[exactly "3"; between "0" "1"]; [between "1" "2"; any_digit];
   [exactly "0"; between "1" "9"]; [between "1" "9"]; [exactly " "; between "1" "9"]].
Definition re_H : directive :=
  [[exactly "2"; between "0" "3"]; [between "0" "1"; any_digit]; [any_digit]].
Definition re_M : directive := [[between "0" "5"; any_digit]; [any_digit]].
Definition re_S : directive :=
  [[exactly "6"; between "0" "1"]; [between "0" "5"; any_digit]; [any_digit]].

(** A piece of a format: a directive, or a literal letter matched without
    regard to case, or another literal character. *)
Inductive format_item :=
| Directive (d : directive)
| Letter (lower upper : ascii)
| Literal (c : ascii).

Definition format_YmdTHMS : list format_item :=
  [Directive re_Y; Literal "-"; Directive re_m; Literal "-"; Directive re_d;
   Letter "t" "T";
   Directive re_H; Literal ":"; Directive re_M; Literal ":"; Directive re_S].

(** The ways a format matches at the start of [s]: the texts of the groups
    and what is left of the string. *)
Fixpoint match_format (fmt : list format_item) (s : string)
  : list (list string * string) :=
  match fmt with
  | [] => [([], s)]
  | Directive d :: fmt' =>
      flat_map (fun '(text, rest) =>
                  map (fun '(groups, rest') => (text :: groups, rest'))
                      (match_format fmt' rest))
               (match_directive d s)
  | Letter lo up :: fmt' =>
      match s with
      | String c s' =>
          if Ascii.eqb c lo || Ascii.eqb c up then match_format fmt' s' else []
      | EmptyString => []
      end
  | Literal a :: fmt' =>
      match s with
      | String c s' => if Ascii.eqb c a then match_format fmt' s' else []
      | EmptyString => []
      end
  end.

(** [int(text)] on the text of a group: digits, after blanks. *)
Definition int_of_group (text : string) : Z :=
  fold_left (fun acc c => if any_digit c then (acc * 10 + Z.of_N (code c) - 48)%Z else acc)
            (list_ascii_of_string text) 0%Z.

(** ** Exceptions and outcomes *)

Inductive exn :=
| RequestException              (* [requests.post] or [resp.json()] failed *)
| HTTPError (status : Z)        (* [resp.raise_for_status()] *)
| GraphQLError                  (* [Exception("GraphQL query returned errors.")] *)
| KeyError (key : string)       (* a subscript on a response of another shape *)
| ValueError (reason : string)  (* [datetime.strptime] *)
| OverflowError.                (* date arithmetic out of range *)

Inductive outcome (A : Type) :=
| Return (a : A)
| Raise (e : exn).
Arguments Return {A} a.
Arguments Raise {A} e.

Definition strptime (s : string) : outcome datetime :=
  match match_format format_YmdTHMS s with
  | [] => Raise (ValueError "time data does not match format")
  | (groups, rest) :: _ =>
      if negb (String.eqb rest "") then Raise (ValueError "unconverted data remains")
      else
        match map int_of_group groups with
        | [y; m; d; hh; mm; ss] =>
            if (y <? 1)%Z || (days_in_month y m <? d)%Z || (59 <? ss)%Z
            then Raise (ValueError "out of range")
            else Return (mk_datetime y m d hh mm ss 0)
        | _ => Raise (ValueError "time data does not match format")
        end
  end.

(** [now - timedelta(days=n)]: the time of day stays, the date moves by whole
    days, and a result outside years 1 to 9999 is an [OverflowError]; so is
    a [timedelta] of more than 999999999 days. *)
Definition minus_days (now : datetime) (n : Z) : outcome datetime :=
  let ordinal := (ymd2ord (year now) (month now) (day now) - n)%Z in
  if (999999999 <? Z.abs n)%Z || (ordinal <? 1)%Z || (MAXORDINAL <? ordinal)%Z
  then Raise OverflowError
  else
    let '(y, m, d) := ord2ymd ordinal in
    Return (mk_datetime y m d (hour now) (minute now) (second now) (microsecond now)).

(** ** The GraphQL endpoint

    The six queries of the program.  [document] records, for each, the
    variables its text declares, the connection it pages through and the
    arguments that connection is given. *)

Inductive query := Q_members | Q_repositories | Q_refs | Q_commits | Q_issues | Q_prs.

Record document_info := {
  declares : list string;
  connection : string;
  arguments : list (string * string)
}.

Definition document (q : query) : document_info :=
  match q with
  | Q_members =>
      {| declares := ["org"; "cursor"]; connection := "membersWithRole";
         arguments := [("first", "100"); ("after", "$cursor")] |}
  | Q_repositories =>
      {| declares := ["org"; "cursor"]; connection := "repositories";
         arguments := [("first", "100"); ("after", "$cursor")] |}
  | Q_refs =>
      {| declares := ["org"; "repo"; "cursor"]; connection := "refs";
         arguments := [("refPrefix", "refs/heads/"); ("first", "100"); ("after", "$cursor")] |}
  | Q_commits =>
      {| declares := ["owner"; "name"; "branch"; "since"; "cursor"];
         connection := "history";
         arguments := [("first", "100"); ("after", "$cursor"); ("since", "$since")] |}
  | Q_issues =>
      {| declares := ["owner"; "name"; "cursor"]; connection := "issues";
         arguments := [("first", "100"); ("after", "$cursor");
                       ("orderBy", "{field: UPDATED_AT, direction: DESC}")] |}
  | Q_prs =>
      {| declares := ["owner"; "name"; "cursor"]; connection := "pullRequests";
         arguments := [("states", "[OPEN, CLOSED, MERGED]");
                       ("orderBy", "{field: UPDATED_AT, direction: DESC}");
                       ("first", "100"); ("after", "$cursor")] |}
  end.

(** A request: the query and the [variables] dictionary sent with it; a
    variable is a string or [None]. *)
Record request := {
  req_query : query;
  req_variables : dict (option string)
}.

(** Responses, at the types the queries select.  A position is optional
    where the program tests it: [ref], its [target], a commit author's
    [user], the [author] of an issue or pull request. *)

Record page_info := { hasNextPage : bool; endCursor : option string }.

Record page (N : Type) := { nodes : list N; pageInfo : page_info }.
Arguments nodes {N} p.
Arguments pageInfo {N} p.

Record git_actor := { user : option string; date : string }.
Record commit_node := { author : git_actor }.
Record issue_node := { issue_author : option string; updatedAt : string }.

(** [data["data"]["organization"]] *)
Inductive organization_data :=
| O_membersWithRole (p : page string)
| O_repositories (p : page string).

(** [data["data"]["repository"]]; in [R_ref] the outer option is the [ref],
    the inner one its [target]. *)
Inductive repository_data :=
| R_refs (p : page string)
| R_ref (r : option (option (page commit_node)))
| R_issues (p : page issue_node)
| R_pullRequests (p : page issue_node).

Inductive data :=
| D_organization (o : organization_data)
| D_repository (r : repository_data).

(** What the endpoint does with one request. *)
Inductive response :=
| Unreachable                 (* the POST fails, or the body is not JSON *)
| BadStatus (status : Z)      (* a status that [raise_for_status] refuses *)
| Errors (payload : string)   (* a body with an ["errors"] member *)
| Data (d : data).

(** ** The world the program runs in *)

Definition row := list string.

Inductive msg :=
| Msg_graphql_errors (payload : string)
| Msg_set_org_names
| Msg_fetching_repos (org : string)
| Msg_skipping_org (org : string) (e : exn)
| Msg_total_repos (org : string) (n : nat)
| Msg_repo (counter total : nat) (repo : string)
| Msg_no_branches
| Msg_branch (br : string)
| Msg_skipping_branch (br : string) (e : exn)
| Msg_repo_error (repo : string) (e : exn)
| Msg_sleeping
| Msg_fetching_members
| Msg_writing_csv (filename : string)
| Msg_done (org : string).

(** The requests sent and the lines printed, oldest first; the files
    written; how often the clock was read; the seconds slept. *)
Record world := mk_world {
  w_calls : list request;
  w_out : list msg;
  w_files : dict (list row);
  w_clock : nat;
  w_slept : Z
}.

Definition initial_world : world :=
  {| w_calls := []; w_out := []; w_files := Dict.empty; w_clock := 0; w_slept := 0 |}.

(** A computation runs against the responses the endpoint is still to give
    (its script) and the world; once the script is used up the endpoint is
    unreachable. *)
Definition M (A : Type) : Type :=
  list response -> world -> outcome A * (list response * world).

Definition ret {A} (a : A) : M A := fun script w => (Return a, (script, w)).

Definition raise {A} (e : exn) : M A := fun script w => (Raise e, (script, w)).

Definition bind {A B} (m : M A) (k : A -> M B) : M B :=
  fun script w =>
    match m script w with
    | (Return a, (script', w')) => k a script' w'
    | (Raise e, sw) => (Raise e, sw)
    end.

(** [try: m  except Exception as e: handler e] *)
Definition try_except {A} (m : M A) (handler : exn -> M A) : M A :=
  fun script w =>
    match m script w with
    | (Raise e, (script', w')) => handler e script' w'
    | r => r
    end.

Definition lift {A} (o : outcome A) : M A :=
  match o with Return a => ret a | Raise e => raise e end.

Declare Scope prog_scope.
Delimit Scope prog_scope with prog.
Notation "x <- m ;; k" := (bind m (fun x => k))
  (at level 100, m at next level, right associativity) : prog_scope.
Notation "m ;; k" := (bind m (fun _ => k))
  (at level 100, right associativity) : prog_scope.
Local Open Scope prog_scope.

Definition modify (f : world -> world) : M unit :=
  fun script w => (Return tt, (script, f w)).

Definition print (m : msg) : M unit :=
  modify (fun w => {| w_calls := w_calls w; w_out := w_out w ++ [m];
                      w_files := w_files w; w_clock := w_clock w; w_slept := w_slept w |}).

Definition record_call (r : request) (w : world) : world :=
  {| w_calls := w_calls w ++ [r]; w_out := w_out w;
     w_files := w_files w; w_clock := w_clock w; w_slept := w_slept w |}.

(** [time.sleep(seconds)] *)
Definition sleep (seconds : Z) : M unit :=
  modify (fun w => {| w_calls := w_calls w; w_out := w_out w;
                      w_files := w_files w; w_clock := w_clock w;
                      w_slept := (w_slept w + seconds)%Z |}).

(** [datetime.now(timezone.utc)]: [clock k] is what the [k]-th reading
    gives. *)
Definition now (clock : nat -> datetime) : M datetime :=
  fun script w =>
    (Return (clock (w_clock w)),
     (script, {| w_calls := w_calls w; w_out := w_out w; w_files := w_files w;
                 w_clock := S (w_clock w); w_slept := w_slept w |})).

Definition set_files (files : dict (list row)) (w : world) : world :=
  {| w_calls := w_calls w; w_out := w_out w; w_files := files;
     w_clock := w_clock w; w_slept := w_slept w |}.

(** [open(filename, "w")]: the file is created, or emptied.  The file
    system is taken to accept every name. *)
Definition open_w (filename : string) : M unit :=
  modify (fun w => set_files (Dict.set (w_files w) filename []) w).

(** [csv.writer(fp).writerow(r)] on the file opened under [filename] *)
Definition writerow (filename : string) (r : row) : M unit :=
  modify (fun w =>
    match Dict.get (w_files w) filename with
    | Some rows => set_files (Dict.set (w_files w) filename (rows ++ [r])) w
    | None => w
    end).

(** [for x in xs: body], threading the variables the body assigns. *)
Fixpoint for_each {X S} (xs : list X) (body : X -> S -> M S) (s : S) : M S :=
  match xs with
  | [] => ret s
  | x :: xs' => s' <- body x s ;; for_each xs' body s'
  end.

(** ** The query runner (lines 19-27)

    [respond] is what [run_query] makes of the response it receives: a
    failed POST or a refused status raises, a body with [errors] is printed
    and raises, any other body is returned. *)

Definition respond (r : response) (w : world) : outcome data * world :=
  match r with
  | Unreachable => (Raise RequestException, w)
  | BadStatus status => (Raise (HTTPError status), w)
  | Errors payload =>
      (Raise GraphQLError,
       {| w_calls := w_calls w; w_out := w_out w ++ [Msg_graphql_errors payload];
          w_files := w_files w; w_clock := w_clock w; w_slept := w_slept w |})
  | Data d => (Return d, w)
  end.

Definition run_query (q : query) (variables : dict (option string)) : M data :=
  fun script w =>
    let w := record_call {| req_query := q; req_variables := variables |} w in
    match script with
    | [] => (Raise RequestException, ([], w))
    | r :: rest => let '(o, w') := respond r w in (o, (rest, w'))
    end.

(** ** Cursor-following loops

    Every traversal has the shape
<<
      cursor, has_next = None, True
      while has_next:
          data = run_query(q, {..., "cursor": cursor})
          ... body ...
          cursor, has_next = page["endCursor"], page["hasNextPage"]
>>
    One pass of the body either falls through to the loop test with the new
    cursor and flag, or leaves the loop by [break], or raises.  Each pass
    takes one response off the script, so the loop is defined by recursion
    on the script; [while_has_next_pass] below states that a pass is a call
    of [run_query] followed by the body. *)

Inductive pass (A : Type) :=
| Next (acc : A) (cursor : option string) (has_next : bool)
| Break (acc : A)
| Throw (e : exn).
Arguments Next {A} acc cursor has_next.
Arguments Break {A} acc.
Arguments Throw {A} e.

Fixpoint while_has_next {A} (q : query)
    (variables : option string -> dict (option string))
    (body : data -> A -> pass A)
    (cursor : option string) (acc : A)
    (script : list response) (w : world) {struct script}
  : outcome A * (list response * world) :=
  let w := record_call {| req_query := q; req_variables := variables cursor |} w in
  match script with
  | [] => (Raise RequestException, ([], w))
  | r :: rest =>
      match respond r w with
      | (Raise e, w') => (Raise e, (rest, w'))
      | (Return d, w') =>
          match body d acc with
          | Throw e => (Raise e, (rest, w'))
          | Break acc' => (Return acc', (rest, w'))
          | Next acc' cursor' has_next =>
              if has_next
              then while_has_next q variables body cursor' acc' rest w'
              else (Return acc', (rest, w'))
          end
      end
  end.

(** Subscripts into a response. *)
Definition organization_of (d : data) : outcome organization_data :=
  match d with
  | D_organization o => Return o
  | D_repository _ => Raise (KeyError "organization")
  end.

Definition repository_of (d : data) : outcome repository_data :=
  match d with
  | D_repository r => Return r
  | D_organization _ => Raise (KeyError "repository")
  end.

Definition next_page {A N} (acc : A) (p : page N) : pass A :=
  Next acc (endCursor (pageInfo p)) (hasNextPage (pageInfo p)).

(** *** [get_all_org_members_for_org] (lines 29-49) *)

Definition members_body (d : data) (members : list string) : pass (list string) :=
  match organization_of d with
  | Raise e => Throw e
  | Return (O_membersWithRole p) => next_page (members ++ nodes p) p
  | Return _ => Throw (KeyError "membersWithRole")
  end.

(** [{"org": org, "cursor": cursor}] *)
Definition members_vars (org : string) (cursor : option string) : dict (option string) :=
  [("org", Some org); ("cursor", cursor)].

Definition get_all_org_members_for_org (org : string) : M (list string) :=
  while_has_next Q_members (members_vars org) members_body None [].

(** *** [get_repositories_for_org] (lines 51-68) *)

Definition repositories_body (d : data) (repos : list string) : pass (list string) :=
  match organization_of d with
  | Raise e => Throw e
  | Return (O_repositories p) => next_page (repos ++ nodes p) p
  | Return _ => Throw (KeyError "repositories")
  end.

Definition repositories_vars (org : string) (cursor : option string)
  : dict (option string) :=
  [("org", Some org); ("cursor", cursor)].

Definition get_repositories_for_org (org : string) : M (list string) :=
  while_has_next Q_repositories (repositories_vars org) repositories_body None [].

(** *** [get_all_branches] (lines 70-88) *)

Definition branches_body (d : data) (branches : list string) : pass (list string) :=
  match repository_of d with
  | Raise e => Throw e
  | Return (R_refs p) => next_page (branches ++ nodes p) p
  | Return _ => Throw (KeyError "refs")
  end.

(** [{"org": org, "repo": repo, "cursor": cursor}] *)
Definition refs_vars (org repo : string) (cursor : option string)
  : dict (option string) :=
  [("org", Some org); ("repo", Some repo); ("cursor", cursor)].

Definition get_all_branches (repo org : string) : M (list string) :=
  while_has_next Q_refs (refs_vars org repo) branches_body None [].

(** *** [collect_branch_activity] (lines 90-162) *)

(** A run of [(login, date)] events, each kept when it is the latest of
    its login. *)
Definition record_events (activity : dict string) (events : list (string * string))
  : dict string :=
  fold_left (fun acc '(login, date) => keep_latest acc login date) events activity.

(** Lines 112-117: [for node in hist["nodes"]: user = node["author"].get("user") ...] *)
Definition record_commit_nodes (activity : dict string) (ns : list commit_node)
  : dict string :=
  fold_left (fun acc node =>
               match user (author node) with
               | Some login => keep_latest acc login (date (author node))
               | None => acc
               end) ns activity.

(** Lines 133-137 and 154-158: [for issue in ...: if issue["author"]: ...] *)
Definition record_issue_nodes (activity : dict string) (ns : list issue_node)
  : dict string :=
  fold_left (fun acc node =>
               match issue_author node with
               | Some login => keep_latest acc login (updatedAt node)
               | None => acc
               end) ns activity.

(** Lines 106-118.  [.get("ref")] is [None] also when the repository object
    has no [ref] member. *)
Definition commits_body (d : data) (activity : dict string) : pass (dict string) :=
  match repository_of d with
  | Raise e => Throw e
  | Return r =>
      let ref := match r with R_ref x => x | _ => None end in
      match ref with
      | None => Break activity
      | Some None => Break activity
      | Some (Some hist) =>
          next_page (record_commit_nodes activity (nodes hist)) hist
      end
  end.

(** Lines 131-139. *)
Definition issues_body (d : data) (activity : dict string) : pass (dict string) :=
  match repository_of d with
  | Raise e => Throw e
  | Return (R_issues p) =>
      next_page (record_issue_nodes activity (nodes p)) p
  | Return _ => Throw (KeyError "issues")
  end.

(** Lines 152-160. *)
Definition prs_body (d : data) (activity : dict string) : pass (dict string) :=
  match repository_of d with
  | Raise e => Throw e
  | Return (R_pullRequests p) =>
      next_page (record_issue_nodes activity (nodes p)) p
  | Return _ => Throw (KeyError "pullRequests")
  end.

(** Line 107: the only variables that carry [since]. *)
Definition commits_vars (org repo branch since_iso : string) (cursor : option string)
  : dict (option string) :=
  [("owner", Some org); ("name", Some repo); ("branch", Some branch);
   ("since", Some since_iso); ("cursor", cursor)].

(** Lines 132 and 153: [{"owner": org, "name": repo, "cursor": cursor}] *)
Definition issues_vars (org repo : string) (cursor : option string)
  : dict (option string) :=
  [("owner", Some org); ("name", Some repo); ("cursor", cursor)].

Definition prs_vars (org repo : string) (cursor : option string)
  : dict (option string) :=
  [("owner", Some org); ("name", Some repo); ("cursor", cursor)].

Definition commits_loop (org repo branch since_iso : string)
  : dict string -> M (dict string) :=
  while_has_next Q_commits (commits_vars org repo branch since_iso) commits_body None.

Definition issues_loop (org repo : string) : dict string -> M (dict string) :=
  while_has_next Q_issues (issues_vars org repo) issues_body None.

Definition prs_loop (org repo : string) : dict string -> M (dict string) :=
  while_has_next Q_prs (prs_vars org repo) prs_body None.

Definition collect_branch_activity (org repo branch since_iso : string)
  : M (dict string) :=
  activity <- commits_loop org repo branch since_iso Dict.empty ;;
  activity <- issues_loop org repo activity ;;
  prs_loop org repo activity.

(** ** The report (lines 210-224) *)

(** [sorted(s)] on a set of strings. *)
Definition sorted (s : gset string) : list string :=
  merge_sort String.le (elements s).

(** [set(members) - set(overall_activity.keys())] *)
Definition never_active_users (members : list string) (overall_activity : dict string)
  : gset string :=
  list_to_set members ∖ list_to_set (Dict.keys overall_activity).

Definition header : row := ["Users"; "Last activity"; "active"].

(** Lines 221-222: one row of an observed login. *)
Definition activity_row (since_date : datetime) (filename : string)
    (entry : string * string) (_ : unit) : M unit :=
  let '(user, last_iso) := entry in
  dt <- lift (strptime (slice_to 19 last_iso)) ;;
  writerow filename
    [user; strftime_dmY dt; str_lower_bool (datetime_ge dt since_date)].

Definition never_active_row (filename : string) (user : string) (_ : unit) : M unit :=
  writerow filename [user; "N/A"; "never-active"].

(** Lines 217-224. *)
Definition write_report (filename : string) (since_date : datetime)
    (overall_activity : dict string) (never_active : gset string) : M unit :=
  open_w filename ;;
  writerow filename header ;;
  for_each (Dict.items overall_activity) (activity_row since_date filename) tt ;;
  for_each (sorted never_active) (never_active_row filename) tt.

(** ** The orchestrator (lines 164-226) *)

(** Lines 193-201.  The merge happens only after [collect_branch_activity]
    has returned, so a branch that fails leaves the mapping as it was. *)
Definition process_branch (org repo since_iso : string) (br : string)
    (overall_activity : dict string) : M (dict string) :=
  print (Msg_branch br) ;;
  try_except
    (act <- collect_branch_activity org repo br since_iso ;;
     ret (merge_activity overall_activity act))
    (fun e => print (Msg_skipping_branch br e) ;; ret overall_activity).

(** Lines 205-207: the pause after every hundredth repository. *)
Definition pause_check (repo_counter : nat) : M unit :=
  if (repo_counter mod 100 =? 0)%nat then print Msg_sleeping ;; sleep 2 else ret tt.

(** Lines 185-207, one repository.  The loop carries the mapping and the
    counter; [continue] on a repository without branches also skips the
    pause.  Nothing after [get_all_branches] raises inside the [try], so the
    handler finds the mapping as the repository found it. *)
Definition process_repo (org since_iso : string) (total : nat) (repo : string)
    (st : dict string * nat) : M (dict string * nat) :=
  let '(overall_activity, repo_counter) := st in
  let repo_counter := S repo_counter in
  print (Msg_repo repo_counter total repo) ;;
  r <- try_except
         (branches <- get_all_branches repo org ;;
          match branches with
          | [] => print Msg_no_branches ;; ret (overall_activity, true)
          | _ :: _ =>
              overall_activity' <-
                for_each branches (process_branch org repo since_iso) overall_activity ;;
              ret (overall_activity', false)
          end)
         (fun e => print (Msg_repo_error repo e) ;; ret (overall_activity, false)) ;;
  let '(overall_activity', continued) := r in
  if continued then ret (overall_activity', repo_counter)
  else pause_check repo_counter ;; ret (overall_activity', repo_counter).

Definition report_filename (org : string) (stamp : datetime) : string :=
  "user_activity_report_" ++ org ++ "_" ++ strftime_stamp stamp ++ ".csv".

(** Lines 209-226: the members, the never-active set and the report.
    Nothing here is inside a [try]. *)
Definition report_phase (clock : nat -> datetime) (org : string)
    (since_date : datetime) (overall_activity : dict string) : M unit :=
  print Msg_fetching_members ;;
  members <- get_all_org_members_for_org org ;;
  let never_active := never_active_users members overall_activity in
  stamp <- now clock ;;
  let filename := report_filename org stamp in
  print (Msg_writing_csv filename) ;;
  write_report filename since_date overall_activity never_active ;;
  print (Msg_done org).

(** Lines 170-226, one organization. *)
Definition process_org (DAYS_INACTIVE_THRESHOLD : Z) (clock : nat -> datetime)
    (org : string) (_ : unit) : M unit :=
  print (Msg_fetching_repos org) ;;
  fetched <- try_except
               (repos <- get_repositories_for_org org ;; ret (Some repos))
               (fun e => print (Msg_skipping_org org e) ;; ret None) ;;
  match fetched with
  | None => ret tt
  | Some repos =>
      print (Msg_total_repos org (length repos)) ;;
      t <- now clock ;;
      since_date <- lift (minus_days t DAYS_INACTIVE_THRESHOLD) ;;
      let since_iso := isoformat since_date in
      st <- for_each repos (process_repo org since_iso (length repos))
                     (Dict.empty, 0%nat) ;;
      report_phase clock org since_date (fst st)
  end.

(** Lines 164-226. *)
Definition main (ORG_NAMES : list string) (DAYS_INACTIVE_THRESHOLD : Z)
    (clock : nat -> datetime) : M unit :=
  match ORG_NAMES with
  | [] => print Msg_set_org_names
  | _ :: _ => for_each ORG_NAMES (process_org DAYS_INACTIVE_THRESHOLD clock) tt
  end.

(** A run from a fresh world. *)
Definition run {A} (m : M A) (script : list response) : outcome A * (list response * world) :=
  m script initial_world.

(** ** Vocabulary of the statements *)

(** The [(login, date)] events of a page: its nodes that have an author. *)
Definition commit_events (ns : list commit_node) : list (string * string) :=
  omap (fun node =>
          match user (author node) with
          | Some login => Some (login, date (author node))
          | None => None
          end) ns.

Definition issue_events (ns : list issue_node) : list (string * string) :=
  omap (fun node =>
          match issue_author node with
          | Some login => Some (login, updatedAt node)
          | None => None
          end) ns.

(** A page that announces another one, and a page that is the last. *)
Definition more {N} (np : list N * option string) : page N :=
  {| nodes := np.1; pageInfo := {| hasNextPage := true; endCursor := np.2 |} |}.

Definition final {N} (np : list N * option string) : page N :=
  {| nodes := np.1; pageInfo := {| hasNextPage := false; endCursor := np.2 |} |}.

(** A paginated collection as the endpoint serves it: pages that announce a
    successor, then one that does not. *)
Definition paged {N} (pre : list (list N * option string))
    (last : list N * option string) : list (page N) :=
  map more pre ++ [final last].

(** The nodes of all pages, in the order of arrival. *)
Definition all_nodes {N} (pages : list (page N)) : list N :=
  concat (map nodes pages).

(** The cursors a traversal of these pages sends: none at first, then the
    cursor of each page that announced a successor. *)
Definition cursors_sent {N} (pre : list (list N * option string))
  : list (option string) :=
  None :: map snd pre.

(** The world after further requests. *)
Definition with_calls (w : world) (reqs : list request) : world :=
  {| w_calls := w_calls w ++ reqs; w_out := w_out w; w_files := w_files w;
     w_clock := w_clock w; w_slept := w_slept w |}.

Definition requests (q : query) (variables : option string -> dict (option string))
    (cursors : list (option string)) : list request :=
  map (fun cursor => {| req_query := q; req_variables := variables cursor |}) cursors.

(** The bodies the endpoint sends for the pages of each collection. *)
Definition members_data (p : page string) : response :=
  Data (D_organization (O_membersWithRole p)).
Definition repositories_data (p : page string) : response :=
  Data (D_organization (O_repositories p)).
Definition refs_data (p : page string) : response :=
  Data (D_repository (R_refs p)).
Definition history_data (p : page commit_node) : response :=
  Data (D_repository (R_ref (Some (Some p)))).
Definition issues_data (p : page issue_node) : response :=
  Data (D_repository (R_issues p)).
Definition prs_data (p : page issue_node) : response :=
  Data (D_repository (R_pullRequests p)).

(** The first nineteen characters of an ISO-8601 timestamp,
    [YYYY-MM-DDTHH:MM:SS], for given fields. *)
Definition wall_clock (y m d hh mm ss : Z) : string :=
  dec 4 y ++ "-" ++ dec 2 m ++ "-" ++ dec 2 d ++ "T"
  ++ dec 2 hh ++ ":" ++ dec 2 mm ++ ":" ++ dec 2 ss.

(** The fields of a date and time of the calendar, the year in four
    digits (a smaller year is printed by [%Y] with or without leading
    zeros, depending on the C library). *)
Definition valid_fields (y m d hh mm ss : Z) : Prop :=
  (1000 <= y <= 9999 /\ 1 <= m <= 12 /\ 1 <= d <= days_in_month y m
   /\ 0 <= hh <= 23 /\ 0 <= mm <= 59 /\ 0 <= ss <= 59)%Z.

(** An entry of the activity mapping whose timestamp is well formed: the
    login, the fields of the first nineteen characters, and what follows
    them ([Z], an offset such as [+02:00], fractions of a second). *)
Record observed := {
  o_login : string;
  o_year : Z; o_month : Z; o_day : Z;
  o_hour : Z; o_minute : Z; o_second : Z;
  o_suffix : string
}.

Definition o_timestamp (o : observed) : string :=
  wall_clock (o_year o) (o_month o) (o_day o) (o_hour o) (o_minute o) (o_second o)
  ++ o_suffix o.

Definition o_entry (o : observed) : string * string := (o_login o, o_timestamp o).

(** The fields of the first nineteen characters, read as a UTC time. *)
Definition o_datetime (o : observed) : datetime :=
  mk_datetime (o_year o) (o_month o) (o_day o) (o_hour o) (o_minute o) (o_second o) 0.

Definition o_valid (o : observed) : Prop :=
  valid_fields (o_year o) (o_month o) (o_day o) (o_hour o) (o_minute o) (o_second o).

(** The row expected for an observed login: the login, the date as
    day-month-year, and [true] or [false]. *)
Definition observed_row (since_date : datetime) (o : observed) : row :=
  [o_login o;
   (dec 2 (o_day o) ++ "-" ++ dec 2 (o_month o) ++ "-" ++ dec 4 (o_year o))%string;
   if datetime_ge (o_datetime o) since_date then "true" else "false"].

Definition never_row (user : string) : row := [user; "N/A"; "never-active"].

(** The world in which the file [filename] holds [rows]. *)
Definition with_file (w : world) (filename : string) (rows : list row) : world :=
  set_files (Dict.set (w_files w) filename rows) w.

(** The world after further printed lines, and after a reading of the
    clock. *)
Definition printed (w : world) (ms : list msg) : world :=
  {| w_calls := w_calls w; w_out := w_out w ++ ms; w_files := w_files w;
     w_clock := w_clock w; w_slept := w_slept w |}.

Definition ticked (w : world) : world :=
  {| w_calls := w_calls w; w_out := w_out w; w_files := w_files w;
     w_clock := S (w_clock w); w_slept := w_slept w |}.

(** A computation that returns normally whatever the endpoint answers. *)
Definition returns {A} (m : M A) : Prop :=
  forall script w, exists a script' w', m script w = (Return a, (script', w')).

(** The body the endpoint sends for a branch without commits: the [ref]
    itself is null, or its [target] is. *)
Definition absent_ref (target_only : bool) : response :=
  Data (D_repository (R_ref (if target_only then Some None else None))).

(** What of the world a request does not touch. *)
Definition beside_calls (w : world) : list msg * dict (list row) * nat * Z :=
  (w_out w, w_files w, w_clock w, w_slept w).

(** Two runs that end alike: the same outcome, the same script left, and
    worlds that differ at most in the requests recorded. *)
Definition agree {A} (r1 r2 : outcome A * (list response * world)) : Prop :=
  r1.1 = r2.1 /\ r1.2.1 = r2.2.1 /\ beside_calls r1.2.2 = beside_calls r2.2.2.

(** What one event says about a login, and one step of [latest_in]. *)
Definition contribution (login : string) (event : string * string) : option string :=
  if String.eqb login event.1 then Some event.2 else None.

Definition latest_step (login : string) (acc : option string) (event : string * string)
  : option string :=
  let '(k, v) := event in if String.eqb login k then opt_max acc (Some v) else acc.

(** [d'] holds every login of [d], with a timestamp that is not smaller in
    the order of strings, the order the program compares timestamps in. *)
Definition grows (d d' : dict string) : Prop :=
  forall login t, Dict.get d login = Some t ->
    exists t', Dict.get d' login = Some t' /\ String.leb t t' = true.

(** The mapping after a step: it has grown, and is a dictionary if it
    was. *)
Definition keeps (d d' : dict string) : Prop :=
  grows d d' /\ (Dict.wf d -> Dict.wf d').

(** The exception and the printed lines of a response that is not data. *)
Definition failure (r : response) : option (exn * list msg) :=
  match r with
  | Unreachable => Some (RequestException, [])
  | BadStatus status => Some (HTTPError status, [])
  | Errors payload => Some (GraphQLError, [Msg_graphql_errors payload])
  | Data _ => None
  end.

(** A computation that leaves the files and the clock alone and takes its
    responses from the front of the script. *)
Definition quiet {A} (m : M A) : Prop :=
  forall script w o script' w',
    m script w = (o, (script', w')) ->
    w_files w' = w_files w /\ w_clock w' = w_clock w
    /\ exists used, script = used ++ script'.

(** A computation that has slept at most [b] seconds more when it ends,
    however it ends. *)
Definition pauses {A} (b : Z) (m : M A) : Prop :=
  forall script w,
    (w_slept w <= w_slept (m script w).2.2 <= w_slept w + b)%Z.

(** Text in which every character is one byte: on it the bytes of the
    model are the code points of Python's [str], [s[:19]] counts the same
    characters, and the only decimal digits are the ASCII ones. *)
Definition ascii_text (s : string) : bool :=
  forallb (fun c => (code c <? 128)%N) (list_ascii_of_string s).

(** The requests a computation adds to those already sent, all of them
    with the property [P], however it ends. *)
Definition sends {A} (P : request -> Prop) (m : M A) : Prop :=
  forall script w, exists sent,
    w_calls (m script w).2.2 = w_calls w ++ sent /\ Forall P sent.

(** What is right for a request of a branch's traversals: the commit query
    gives [$since] to its history and is sent with the cutoff; the issue
    and pull-request queries declare no such variable, give it to no
    argument, order by [UPDATED_AT] descending and are sent without it. *)
Definition since_with_commits_only (since_iso : string) (r : request) : Prop :=
  match req_query r with
  | Q_commits =>
      In "since" (declares (document Q_commits))
      /\ In ("since", "$since") (arguments (document Q_commits))
      /\ Dict.get (req_variables r) "since" = Some (Some since_iso)
  | Q_issues | Q_prs =>
      ~ In "since" (declares (document (req_query r)))
      /\ Forall (fun a => a.1 <> "since" /\ a.2 <> "$since")
                (arguments (document (req_query r)))
      /\ In ("orderBy", "{field: UPDATED_AT, direction: DESC}")
            (arguments (document (req_query r)))
      /\ Dict.get (req_variables r) "since" = None
  | _ => False
  end.

(** *** Chronological order, in the words of the specification

    The specification speaks of timestamps that are chronologically
    greater.  The program has no function for that: it compares the text
    (lines 116, 136, 157, 198) and reads the first nineteen characters as UTC
    (line 221).  The definitions below say what the specification's words
    mean, to compare them with what the program computes: the moment an
    ISO-8601 timestamp denotes, in seconds from 0001-01-01T00:00:00Z.  An
    offset [+hh:mm] says that the local time written before it is [hh:mm]
    ahead of UTC. *)

(** [s[n:]] *)
Fixpoint slice_from (n : nat) (s : string) : string :=
  match n, s with
  | S n', String _ s' => slice_from n' s'
  | _, _ => s
  end.

Definition seconds_of_datetime (dt : datetime) : Z :=
  ((ymd2ord (year dt) (month dt) (day dt) - 1) * 86400
   + hour dt * 3600 + minute dt * 60 + second dt)%Z.

(** The offset of [Z], [+hh:mm] or [-hh:mm], in seconds. *)
Definition utc_offset (suffix : string) : option Z :=
  match list_ascii_of_string suffix with
  | [z] => if Ascii.eqb z "Z" then Some 0%Z else None
  | [sign; h1; h2; colon; m1; m2] =>
      if forallb any_digit [h1; h2; m1; m2] && Ascii.eqb colon ":" then
        let ahead := (int_of_group (String h1 (String h2 "")) * 3600
                      + int_of_group (String m1 (String m2 "")) * 60)%Z in
        if Ascii.eqb sign "+" then Some ahead
        else if Ascii.eqb sign "-" then Some (- ahead)%Z
        else None
      else None
  | _ => None
  end.

(** The moment of [YYYY-MM-DDTHH:MM:SS] followed by an offset. *)
Definition moment (timestamp : string) : option Z :=
  match strptime (slice_to 19 timestamp), utc_offset (slice_from 19 timestamp) with
  | Return dt, Some ahead => Some (seconds_of_datetime dt - ahead)%Z
  | _, _ => None
  end.

(** * Properties *)

(** ** The order of timestamps *)

Lemma ltb_leb (a b : string) : String.ltb a b = negb (String.leb b a).
Proof.
  unfold String.ltb, String.leb.
  rewrite (String.compare_antisym b a).
  by destruct (String.compare a b).
Qed.

Lemma leb_refl (a : string) : String.leb a a = true.
Proof. apply Is_true_true. change (String.le a a). reflexivity. Qed.

Lemma leb_trans (a b c : string) :
  String.leb a b = true -> String.leb b c = true -> String.leb a c = true.
Proof.
  intros Hab%Is_true_true Hbc%Is_true_true. apply Is_true_true.
  change (String.le a c). by trans b.
Qed.

Lemma leb_false (a b : string) : String.leb a b = false -> String.leb b a = true.
Proof. intros H. destruct (String.leb_total a b); congruence. Qed.

Lemma str_max_leb (a b : string) :
  str_max a b = if String.leb b a then a else b.
Proof. unfold str_max. rewrite ltb_leb. by destruct (String.leb b a). Qed.

(** [str_max] is the maximum of the order: an upper bound of both, and one
    of them. *)
Lemma str_max_spec (a b : string) :
  String.leb a (str_max a b) = true /\ String.leb b (str_max a b) = true
  /\ (str_max a b = a \/ str_max a b = b).
Proof.
  rewrite str_max_leb. destruct (String.leb b a) eqn:E.
  - auto using leb_refl.
  - auto using leb_refl, leb_false.
Qed.

Lemma str_max_comm (a b : string) : str_max a b = str_max b a.
Proof.
  rewrite !str_max_leb.
  destruct (String.leb b a) eqn:E1, (String.leb a b) eqn:E2; try done.
  - by apply String.leb_antisym.
  - apply leb_false in E1. congruence.
Qed.

Lemma str_max_assoc (a b c : string) :
  str_max (str_max a b) c = str_max a (str_max b c).
Proof.
  rewrite !str_max_leb.
  destruct (String.leb b a) eqn:E1, (String.leb c b) eqn:E2; rewrite ?E1, ?E2; try done.
  - by rewrite (leb_trans c b a).
  - destruct (String.leb c a) eqn:E3; [|done].
    apply leb_false in E1. apply leb_false in E2.
    apply String.leb_antisym; [done|]. by apply (leb_trans a b c).
Qed.

Lemma opt_max_comm (x y : option string) : opt_max x y = opt_max y x.
Proof. destruct x, y; simpl; try done. by rewrite str_max_comm. Qed.

Lemma opt_max_assoc (x y z : option string) :
  opt_max (opt_max x y) z = opt_max x (opt_max y z).
Proof. destruct x, y, z; simpl; try done. by rewrite str_max_assoc. Qed.

Lemma opt_max_None_r (x : option string) : opt_max x None = x.
Proof. by destruct x. Qed.

(** ** Dictionaries *)

Section dict_facts.
Context {V : Type}.
Implicit Types (d : dict V) (k : string) (v : V).

Lemma dict_get_set_eq d k v : Dict.get (Dict.set d k v) k = Some v.
Proof.
  induction d as [|[k' v'] d IH]; simpl.
  - by rewrite String.eqb_refl.
  - destruct (String.eqb_spec k k') as [->|Hne]; simpl.
    + by rewrite String.eqb_refl.
    + by apply String.eqb_neq in Hne as ->.
Qed.

Lemma dict_get_set_ne d k k' v :
  k <> k' -> Dict.get (Dict.set d k v) k' = Dict.get d k'.
Proof.
  intros Hne. induction d as [|[k0 v0] d IH]; simpl.
  - apply not_eq_sym, String.eqb_neq in Hne. by rewrite Hne.
  - destruct (String.eqb_spec k k0) as [->|Hk]; simpl.
    + apply not_eq_sym, String.eqb_neq in Hne. by rewrite Hne.
    + by rewrite IH.
Qed.

Lemma dict_get_set d k k' v :
  Dict.get (Dict.set d k v) k' = if String.eqb k' k then Some v else Dict.get d k'.
Proof.
  destruct (String.eqb_spec k' k) as [->|Hne].
  - apply dict_get_set_eq.
  - by apply dict_get_set_ne.
Qed.

Lemma dict_get_None d k : Dict.get d k = None <-> k ∉ Dict.keys d.
Proof.
  induction d as [|[k' v'] d IH]; simpl.
  - split; [intros _; apply not_elem_of_nil | done].
  - rewrite not_elem_of_cons. destruct (String.eqb_spec k k') as [->|Hne].
    + split; [done | by intros []].
    + rewrite IH. tauto.
Qed.

Lemma dict_keys_set d k v :
  Dict.keys (Dict.set d k v)
  = if Dict.mem d k then Dict.keys d else Dict.keys d ++ [k].
Proof.
  unfold Dict.mem, Dict.keys.
  induction d as [|[k' v'] d IH]; simpl; [done|].
  destruct (String.eqb_spec k k') as [->|Hne]; simpl; [done|].
  rewrite IH. by destruct (Dict.get d k).
Qed.

Lemma dict_set_wf d k v : Dict.wf d -> Dict.wf (Dict.set d k v).
Proof.
  unfold Dict.wf. rewrite dict_keys_set. unfold Dict.mem.
  destruct (Dict.get d k) eqn:E; [done|].
  intros Hwf. apply NoDup_app. split_and!; [done| |apply NoDup_singleton].
  intros x Hx ->%list_elem_of_singleton. by apply dict_get_None in E.
Qed.

End dict_facts.

(** ** Keeping the latest timestamp *)

Lemma keep_latest_get (d : dict string) (k v k' : string) :
  Dict.get (keep_latest d k v) k'
  = if String.eqb k' k then opt_max (Dict.get d k) (Some v) else Dict.get d k'.
Proof.
  unfold keep_latest, Dict.mem.
  destruct (Dict.get d k) as [old|] eqn:E; simpl.
  - unfold str_max. destruct (String.ltb old v).
    + apply dict_get_set.
    + destruct (String.eqb_spec k' k) as [->|]; congruence.
  - apply dict_get_set.
Qed.

Lemma keep_latest_wf (d : dict string) (k v : string) :
  Dict.wf d -> Dict.wf (keep_latest d k v).
Proof.
  intros Hwf. unfold keep_latest.
  destruct (_ || _); [by apply dict_set_wf | done].
Qed.

(** An event that is not later than what the mapping holds changes
    nothing. *)
Lemma keep_latest_noop (d : dict string) (k v m : string) :
  Dict.get d k = Some m -> String.leb v m = true -> keep_latest d k v = d.
Proof.
  intros Hget Hle. unfold keep_latest, Dict.mem.
  rewrite Hget, ltb_leb, Hle. done.
Qed.

Lemma latest_step_contribution login acc event :
  latest_step login acc event = opt_max acc (contribution login event).
Proof.
  destruct event as [k v]. unfold latest_step, contribution; simpl.
  destruct (String.eqb login k); [done|]. by rewrite opt_max_None_r.
Qed.

Lemma latest_from (events : list (string * string)) (login : string)
    (acc : option string) :
  fold_left (latest_step login) events acc
  = opt_max acc (fold_left (latest_step login) events None).
Proof.
  revert acc. induction events as [|ev events IH]; intros acc; simpl.
  - by rewrite opt_max_None_r.
  - rewrite IH, (IH (latest_step login None ev)).
    rewrite !latest_step_contribution. simpl. by rewrite opt_max_assoc.
Qed.

Lemma latest_in_cons (ev : string * string) events login :
  latest_in (ev :: events) login
  = opt_max (contribution login ev) (latest_in events login).
Proof.
  unfold latest_in. change (fun acc '(k, v) => _) with (latest_step login).
  simpl. rewrite latest_from. by rewrite latest_step_contribution.
Qed.

Lemma latest_in_nil login : latest_in [] login = None.
Proof. done. Qed.

Lemma record_events_cons (d : dict string) k v events :
  record_events d ((k, v) :: events) = record_events (keep_latest d k v) events.
Proof. done. Qed.

(** After a run of events a login holds the latest of what it held before
    and what the events carry for it. *)
Lemma record_events_get (events : list (string * string)) (d : dict string)
    (login : string) :
  Dict.get (record_events d events) login
  = opt_max (Dict.get d login) (latest_in events login).
Proof.
  revert d. induction events as [|[k v] events IH]; intros d.
  - by rewrite latest_in_nil, opt_max_None_r.
  - rewrite record_events_cons, IH, keep_latest_get, latest_in_cons.
    unfold contribution; simpl.
    destruct (String.eqb_spec login k) as [->|Hne]; [|done].
    by rewrite opt_max_assoc.
Qed.

Lemma record_events_wf (events : list (string * string)) (d : dict string) :
  Dict.wf d -> Dict.wf (record_events d events).
Proof.
  revert d. induction events as [|[k v] events IH]; intros d Hwf; [done|].
  rewrite record_events_cons. by apply IH, keep_latest_wf.
Qed.

Lemma latest_in_absent (events : list (string * string)) (login : string) :
  login ∉ Dict.keys events -> latest_in events login = None.
Proof.
  induction events as [|[k v] events IH]; [done|].
  unfold Dict.keys; simpl. rewrite not_elem_of_cons. intros [Hne Hnotin].
  rewrite latest_in_cons, IH by done. unfold contribution; simpl.
  by apply String.eqb_neq in Hne as ->.
Qed.

(** For a dictionary, which holds a login once, the latest date is the
    date it holds. *)
Lemma latest_in_dict (d : dict string) (login : string) :
  Dict.wf d -> latest_in d login = Dict.get d login.
Proof.
  unfold Dict.wf, Dict.keys.
  induction d as [|[k v] d IH]; simpl; [done|].
  intros [Hk Hwf]%NoDup_cons. rewrite latest_in_cons. unfold contribution; simpl.
  destruct (String.eqb_spec login k) as [->|Hne].
  - by rewrite latest_in_absent.
  - by apply IH.
Qed.

Lemma latest_in_upper (events : list (string * string)) (login date : string) :
  (login, date) ∈ events ->
  exists m, latest_in events login = Some m /\ String.leb date m = true.
Proof.
  induction events as [|[k v] events IH]; [by intros ?%elem_of_nil|].
  rewrite latest_in_cons. unfold contribution; simpl.
  intros [[= <- <-]|Hin]%elem_of_cons.
  - rewrite String.eqb_refl. destruct (latest_in events login) as [m|]; simpl.
    + eexists; split; [done|]. apply str_max_spec.
    + eexists; split; [done|]. apply leb_refl.
  - destruct (IH Hin) as (m & -> & Hle).
    destruct (String.eqb login k); simpl.
    + eexists; split; [done|]. eapply leb_trans; [done|]. apply str_max_spec.
    + eauto.
Qed.

Lemma opt_max_upper (x : option string) (m date : string) :
  String.leb date m = true ->
  exists m', opt_max x (Some m) = Some m' /\ String.leb date m' = true.
Proof.
  intros Hle. destruct x as [a|]; simpl; [|eauto].
  eexists; split; [done|]. eapply leb_trans; [done|]. apply str_max_spec.
Qed.

Lemma record_events_noop (events : list (string * string)) (d : dict string) :
  (forall login date, (login, date) ∈ events ->
     exists m, Dict.get d login = Some m /\ String.leb date m = true) ->
  record_events d events = d.
Proof.
  induction events as [|[k v] events IH]; intros Hall; [done|].
  rewrite record_events_cons.
  destruct (Hall k v) as (m & Hget & Hle); [apply list_elem_of_here|].
  rewrite (keep_latest_noop d k v m) by done.
  apply IH. intros login date Hin. apply Hall. by apply list_elem_of_further.
Qed.

(** Recording the same events twice is recording them once. *)
Lemma record_events_twice (events : list (string * string)) (d : dict string) :
  record_events (record_events d events) events = record_events d events.
Proof.
  apply record_events_noop. intros login date Hin.
  rewrite record_events_get.
  destruct (latest_in_upper _ _ _ Hin) as (m & -> & Hle).
  by apply opt_max_upper.
Qed.

Lemma merge_activity_events (into from : dict string) :
  merge_activity into from = record_events into from.
Proof. done. Qed.

(** ** Parsing a timestamp *)

Lemma Z_below_cases (P : Z -> Prop) (bound : nat) :
  (forall k : nat, (k < bound)%nat -> P (Z.of_nat k)) ->
  forall n : Z, (0 <= n < Z.of_nat bound)%Z -> P n.
Proof.
  intros H n Hn. rewrite <- (Z2Nat.id n) by lia. apply H. lia.
Qed.

Ltac by_cases bound :=
  let n := fresh "n" in
  let Hb := fresh "Hb" in
  intros n Hb; pattern n; apply (Z_below_cases _ bound); [|exact Hb];
  clear n Hb;
  let k := fresh "k" in
  let Hk := fresh "Hk" in
  intros k Hk;
  repeat (destruct k as [|k];
          [first [reflexivity | intros; lia] | try (exfalso; lia)]).

Lemma dec2_app (n : Z) (rest : string) :
  (dec 2 n ++ rest)%string = String (digit (n / 10)) (String (digit n) rest).
Proof. reflexivity. Qed.

Lemma dec4_app (n : Z) (rest : string) :
  (dec 4 n ++ rest)%string
  = String (digit (n / 10 / 10 / 10))
      (String (digit (n / 10 / 10)) (String (digit (n / 10)) (String (digit n) rest))).
Proof. reflexivity. Qed.

Lemma digit_mod (n : Z) : digit n = digit (n mod 10).
Proof. unfold digit. by rewrite Z.mod_mod. Qed.

Lemma any_digit_digit (n : Z) : any_digit (digit n) = true.
Proof.
  rewrite digit_mod. pose proof (Z.mod_pos_bound n 10 eq_refl) as Hb.
  revert Hb. generalize (n mod 10)%Z. by_cases 10%nat.
Qed.

Lemma digit_value (n : Z) : (Z.of_N (code (digit n)) - 48 = n mod 10)%Z.
Proof.
  rewrite digit_mod. rewrite <- (Z.mod_mod n 10) at 2 by done.
  pose proof (Z.mod_pos_bound n 10 eq_refl) as Hb.
  revert Hb. generalize (n mod 10)%Z. by_cases 10%nat.
Qed.

(** Each directive reads its two-digit field whole, as the first way to
    match. *)
Lemma re_m_field (rest : string) (m : Z) :
  (0 <= m < 13)%Z -> (1 <= m)%Z ->
  head (match_directive re_m (dec 2 m ++ rest)) = Some (dec 2 m, rest).
Proof. revert m. by_cases 13%nat. Qed.

Lemma re_d_field (rest : string) (d : Z) :
  (0 <= d < 32)%Z -> (1 <= d)%Z ->
  head (match_directive re_d (dec 2 d ++ rest)) = Some (dec 2 d, rest).
Proof. revert d. by_cases 32%nat. Qed.

Lemma re_H_field (rest : string) (hh : Z) :
  (0 <= hh < 24)%Z ->
  head (match_directive re_H (dec 2 hh ++ rest)) = Some (dec 2 hh, rest).
Proof. revert hh. by_cases 24%nat. Qed.

Lemma re_M_field (rest : string) (mm : Z) :
  (0 <= mm < 60)%Z ->
  head (match_directive re_M (dec 2 mm ++ rest)) = Some (dec 2 mm, rest).
Proof. revert mm. by_cases 60%nat. Qed.

Lemma re_S_field (rest : string) (ss : Z) :
  (0 <= ss < 60)%Z ->
  head (match_directive re_S (dec 2 ss ++ rest)) = Some (dec 2 ss, rest).
Proof. revert ss. by_cases 60%nat. Qed.

Lemma re_Y_field (rest : string) (y : Z) :
  match_directive re_Y (dec 4 y ++ rest) = [(dec 4 y, rest)].
Proof.
  rewrite dec4_app. unfold match_directive, re_Y. simpl.
  by rewrite !any_digit_digit.
Qed.

Lemma match_format_directive d fmt s text rest groups r :
  head (match_directive d s) = Some (text, rest) ->
  head (match_format fmt rest) = Some (groups, r) ->
  head (match_format (Directive d :: fmt) s) = Some (text :: groups, r).
Proof.
  simpl. destruct (match_directive d s) as [|[t' r'] l]; [done|].
  intros [= -> ->]. simpl.
  destruct (match_format fmt rest) as [|[g' r''] l']; [done|].
  by intros [= -> ->].
Qed.

Lemma lit_app (c : ascii) (s : string) : (String c "" ++ s)%string = String c s.
Proof. reflexivity. Qed.

Lemma match_format_literal (a : ascii) fmt (s : string) :
  match_format (Literal a :: fmt) (String a s) = match_format fmt s.
Proof. simpl. by rewrite Ascii.eqb_refl. Qed.

Lemma match_format_letter (lower upper : ascii) fmt (s : string) :
  match_format (Letter lower upper :: fmt) (String upper s) = match_format fmt s.
Proof. simpl. by rewrite (Ascii.eqb_refl upper), orb_true_r. Qed.

Lemma int_of_group_dec2 (n : Z) : (0 <= n < 100)%Z -> int_of_group (dec 2 n) = n.
Proof.
  intros Hn. unfold int_of_group. simpl.
  rewrite !any_digit_digit.
  pose proof (digit_value n) as H0. pose proof (digit_value (n / 10)) as H1.
  pose proof (Z.div_mod n 10 ltac:(done)) as E0.
  assert (0 <= n / 10 < 10)%Z as Hq
    by (split; [apply Z.div_pos; lia | apply Z.div_lt_upper_bound; lia]).
  rewrite (Z.mod_small (n / 10) 10) in H1 by done.
  lia.
Qed.

Lemma int_of_group_dec4 (n : Z) : (0 <= n < 10000)%Z -> int_of_group (dec 4 n) = n.
Proof.
  intros Hn. unfold int_of_group. simpl.
  rewrite !any_digit_digit.
  pose proof (digit_value n) as H0. pose proof (digit_value (n / 10)) as H1.
  pose proof (digit_value (n / 10 / 10)) as H2.
  pose proof (digit_value (n / 10 / 10 / 10)) as H3.
  pose proof (Z.div_mod n 10 ltac:(done)) as E0.
  pose proof (Z.div_mod (n / 10) 10 ltac:(done)) as E1.
  pose proof (Z.div_mod (n / 10 / 10) 10 ltac:(done)) as E2.
  assert (0 <= n / 10 < 1000)%Z as Hq1
    by (split; [apply Z.div_pos; lia | apply Z.div_lt_upper_bound; lia]).
  assert (0 <= n / 10 / 10 < 100)%Z as Hq2
    by (split; [apply Z.div_pos; lia | apply Z.div_lt_upper_bound; lia]).
  assert (0 <= n / 10 / 10 / 10 < 10)%Z as Hq3
    by (split; [apply Z.div_pos; lia | apply Z.div_lt_upper_bound; lia]).
  rewrite (Z.mod_small (n / 10 / 10 / 10) 10) in H3 by done.
  lia.
Qed.

Lemma days_in_month_le_31 (y m : Z) : (days_in_month y m <= 31)%Z.
Proof.
  unfold days_in_month. destruct (_ && _); [lia|].
  destruct (Z.to_nat (m - 1)) as [|[|[|[|[|[|[|[|[|[|[|[|k]]]]]]]]]]]]; simpl; try lia.
  destruct k; simpl; lia.
Qed.

Lemma slice_wall_clock y m d hh mm ss (suffix : string) :
  slice_to 19 (wall_clock y m d hh mm ss ++ suffix) = wall_clock y m d hh mm ss.
Proof. reflexivity. Qed.

(** A well-formed timestamp is read back as its fields. *)
Lemma strptime_wall_clock y m d hh mm ss :
  valid_fields y m d hh mm ss ->
  strptime (wall_clock y m d hh mm ss) = Return (mk_datetime y m d hh mm ss 0).
Proof.
  intros (Hy & Hm & Hd & Hh & Hmi & Hs).
  pose proof (days_in_month_le_31 y m) as Hdim.
  assert (head (match_format format_YmdTHMS (wall_clock y m d hh mm ss))
          = Some ([dec 4 y; dec 2 m; dec 2 d; dec 2 hh; dec 2 mm; dec 2 ss], "")) as Hhead.
  { unfold format_YmdTHMS, wall_clock.
    eapply match_format_directive; [by rewrite re_Y_field|].
    rewrite lit_app, match_format_literal.
    eapply match_format_directive; [apply re_m_field; lia|].
    rewrite lit_app, match_format_literal.
    eapply match_format_directive; [apply re_d_field; lia|].
    rewrite lit_app, match_format_letter.
    eapply match_format_directive; [apply re_H_field; lia|].
    rewrite lit_app, match_format_literal.
    eapply match_format_directive; [apply re_M_field; lia|].
    rewrite lit_app, match_format_literal.
    eapply match_format_directive; [exact (re_S_field "" ss ltac:(lia))|].
    done. }
  unfold strptime.
  destruct (match_format _ _) as [|[groups rest] l]; [done|].
  assert ((groups, rest)
          = ([dec 4 y; dec 2 m; dec 2 d; dec 2 hh; dec 2 mm; dec 2 ss], ""))
    as Hpair by (cbn [head] in Hhead; congruence).
  pose proof (f_equal fst Hpair) as Hg. pose proof (f_equal snd Hpair) as Hr.
  cbn [fst snd] in Hg, Hr. subst groups rest. clear Hpair Hhead.
  cbn [String.eqb negb map].
  rewrite int_of_group_dec4, !int_of_group_dec2 by lia.
  replace (y <? 1)%Z with false by lia.
  replace (days_in_month y m <? d)%Z with false by lia.
  replace (59 <? ss)%Z with false by lia.
  done.
Qed.

(** ** The order of well-formed timestamps *)

Lemma string_app_assoc (a b c : string) : ((a ++ b) ++ c = a ++ (b ++ c))%string.
Proof.
  induction a as [|x a IH]; [done|].
  change (String x ((a ++ b) ++ c) = String x (a ++ b ++ c))%string.
  by rewrite IH.
Qed.

Lemma string_compare_refl (s : string) : String.compare s s = Eq.
Proof.
  induction s as [|c s IH]; simpl; [done|].
  unfold Ascii.compare. by rewrite N.compare_refl.
Qed.

Lemma string_compare_cons (c : ascii) (s1 s2 : string) :
  String.compare (String c s1) (String c s2) = String.compare s1 s2.
Proof. simpl. unfold Ascii.compare. by rewrite N.compare_refl. Qed.

Lemma ascii_compare_digit (a b : Z) :
  Ascii.compare (digit a) (digit b) = (a mod 10 ?= b mod 10)%Z.
Proof.
  pose proof (Z.mod_pos_bound a 10 eq_refl) as Ha.
  pose proof (Z.mod_pos_bound b 10 eq_refl) as Hb.
  unfold Ascii.compare, digit.
  rewrite !N_ascii_embedding by lia.
  rewrite Z2N.inj_compare by lia.
  apply Z.add_compare_mono_l.
Qed.

(** Decimal numbers of one width compare as the numbers they write. *)
Lemma compare_dec (width : nat) (a b : Z) (r1 r2 : string) :
  (0 <= a < 10 ^ Z.of_nat width)%Z -> (0 <= b < 10 ^ Z.of_nat width)%Z ->
  String.compare (dec width a ++ r1) (dec width b ++ r2)
  = match (a ?= b)%Z with Eq => String.compare r1 r2 | c => c end.
Proof.
  revert a b r1 r2. induction width as [|width IH]; intros a b r1 r2 Ha Hb.
  - change (10 ^ Z.of_nat 0)%Z with 1%Z in *.
    assert (a = 0%Z) as -> by lia. assert (b = 0%Z) as -> by lia. done.
  - rewrite Nat2Z.inj_succ, Z.pow_succ_r in Ha, Hb by lia.
    cbn [dec]. rewrite !string_app_assoc, !lit_app.
    rewrite IH by (split; [apply Z.div_pos; lia | apply Z.div_lt_upper_bound; lia]).
    cbn [String.compare]. rewrite ascii_compare_digit.
    pose proof (Z.div_mod a 10 ltac:(done)) as Ea.
    pose proof (Z.div_mod b 10 ltac:(done)) as Eb.
    pose proof (Z.mod_pos_bound a 10 eq_refl) as Ma.
    pose proof (Z.mod_pos_bound b 10 eq_refl) as Mb.
    destruct (Z.compare_spec (a / 10) (b / 10)),
             (Z.compare_spec (a mod 10) (b mod 10)),
             (Z.compare_spec a b); try done; lia.
Qed.

Lemma wall_clock_app y m d hh mm ss (s : string) :
  (wall_clock y m d hh mm ss ++ s)%string
  = (dec 4 y ++ String "-" (dec 2 m ++ String "-" (dec 2 d ++ String "T"
       (dec 2 hh ++ String ":" (dec 2 mm ++ String ":" (dec 2 ss ++ s))))))%string.
Proof. reflexivity. Qed.

(** On well-formed timestamps that end alike (all in UTC, say) the order of
    the strings is the order of the dates and times they write. *)
Lemma timestamp_order y1 m1 d1 hh1 mm1 ss1 y2 m2 d2 hh2 mm2 ss2 (suffix : string) :
  valid_fields y1 m1 d1 hh1 mm1 ss1 -> valid_fields y2 m2 d2 hh2 mm2 ss2 ->
  String.ltb (wall_clock y1 m1 d1 hh1 mm1 ss1 ++ suffix)
             (wall_clock y2 m2 d2 hh2 mm2 ss2 ++ suffix)
  = negb (datetime_ge (mk_datetime y1 m1 d1 hh1 mm1 ss1 0)
                      (mk_datetime y2 m2 d2 hh2 mm2 ss2 0)).
Proof.
  intros (Hy1 & Hm1 & Hd1 & Hh1 & Hmi1 & Hs1) (Hy2 & Hm2 & Hd2 & Hh2 & Hmi2 & Hs2).
  pose proof (days_in_month_le_31 y1 m1). pose proof (days_in_month_le_31 y2 m2).
  unfold String.ltb, datetime_ge. rewrite !wall_clock_app.
  rewrite (compare_dec 4) by (change (10 ^ Z.of_nat 4)%Z with 10000%Z; lia).
  rewrite string_compare_cons.
  rewrite (compare_dec 2) by (change (10 ^ Z.of_nat 2)%Z with 100%Z; lia).
  rewrite string_compare_cons.
  rewrite (compare_dec 2) by (change (10 ^ Z.of_nat 2)%Z with 100%Z; lia).
  rewrite string_compare_cons.
  rewrite (compare_dec 2) by (change (10 ^ Z.of_nat 2)%Z with 100%Z; lia).
  rewrite string_compare_cons.
  rewrite (compare_dec 2) by (change (10 ^ Z.of_nat 2)%Z with 100%Z; lia).
  rewrite string_compare_cons.
  rewrite (compare_dec 2) by (change (10 ^ Z.of_nat 2)%Z with 100%Z; lia).
  rewrite string_compare_refl.
  cbn [fields lex_compare year month day hour minute second microsecond].
  destruct (y1 ?= y2)%Z; try done.
  destruct (m1 ?= m2)%Z; try done.
  destruct (d1 ?= d2)%Z; try done.
  destruct (hh1 ?= hh2)%Z; try done.
  destruct (mm1 ?= mm2)%Z; try done.
  destruct (ss1 ?= ss2)%Z; done.
Qed.

(** C1.  Merging is idempotent, the timestamp it leaves for a login does
    not depend on which mapping is merged into which, and that timestamp is
    the maximum, in the lexicographic order of the timestamps, of what the
    two mappings hold for the login; the result is again a dictionary.  On
    well-formed timestamps that end alike the lexicographic order is the
    chronological one: the later string is the later date and time. *)
Theorem merge_activity_idempotent_commutative_max (A B : dict string) :
  Dict.wf A -> Dict.wf B ->
  merge_activity (merge_activity A B) B = merge_activity A B
  /\ (forall login,
        Dict.get (merge_activity A B) login = Dict.get (merge_activity B A) login)
  /\ (forall login,
        Dict.get (merge_activity A B) login
        = opt_max (Dict.get A login) (Dict.get B login))
  /\ (forall a b, String.leb a (str_max a b) = true
                  /\ String.leb b (str_max a b) = true
                  /\ (str_max a b = a \/ str_max a b = b))
  /\ Dict.wf (merge_activity A B)
  /\ (forall y1 m1 d1 hh1 mm1 ss1 y2 m2 d2 hh2 mm2 ss2 suffix,
        valid_fields y1 m1 d1 hh1 mm1 ss1 -> valid_fields y2 m2 d2 hh2 mm2 ss2 ->
        String.ltb (wall_clock y1 m1 d1 hh1 mm1 ss1 ++ suffix)
                   (wall_clock y2 m2 d2 hh2 mm2 ss2 ++ suffix)
        = negb (datetime_ge (mk_datetime y1 m1 d1 hh1 mm1 ss1 0)
                            (mk_datetime y2 m2 d2 hh2 mm2 ss2 0))).
Proof.
  intros HA HB. rewrite !merge_activity_events. split_and!.
  - apply record_events_twice.
  - intros login. rewrite !record_events_get, !latest_in_dict by done.
    apply opt_max_comm.
  - intros login. by rewrite record_events_get, latest_in_dict.
  - apply str_max_spec.
  - by apply record_events_wf.
  - intros. by apply timestamp_order.
Qed.

Lemma merge_activity_idempotent_commutative_max_witness :
  let A := [("alice", "2024-01-10T00:00:00Z"); ("bob", "2024-02-01T00:00:00Z")] in
  let B := [("bob", "2024-01-05T00:00:00Z"); ("alice", "2024-03-01T00:00:00Z");
            ("carol", "2023-12-31T23:59:59Z")] in
  merge_activity A B
  = [("alice", "2024-03-01T00:00:00Z"); ("bob", "2024-02-01T00:00:00Z");
     ("carol", "2023-12-31T23:59:59Z")]
  /\ merge_activity (merge_activity A B) B = merge_activity A B
  /\ Dict.get (merge_activity A B) "alice" = Dict.get (merge_activity B A) "alice".
Proof.
  intros A B.
  assert (HA : Dict.wf A) by (apply (bool_decide_unpack _); vm_compute; exact I).
  assert (HB : Dict.wf B) by (apply (bool_decide_unpack _); vm_compute; exact I).
  destruct (merge_activity_idempotent_commutative_max A B HA HB) as (H1 & H2 & _ & _ & _ & _).
  split; [reflexivity|]. split; [exact H1 | exact (H2 "alice")].
Defined.

(** The merge compares text, so between timestamps that end differently it
    can keep the earlier moment: an issue updated at 00:30 UTC and a commit
    dated 01:00 at two hours ahead of UTC, which is 23:00 UTC of the day
    before.  The merge keeps the commit's timestamp, ninety minutes
    earlier than the one it replaces. *)
Lemma merge_keeps_an_earlier_moment :
  Dict.get (merge_activity [("dev", "2024-01-10T00:30:00Z")]
                           [("dev", "2024-01-10T01:00:00+02:00")]) "dev"
  = Some "2024-01-10T01:00:00+02:00"
  /\ moment "2024-01-10T01:00:00+02:00" = Some 63840438000%Z
  /\ moment "2024-01-10T00:30:00Z" = Some 63840443400%Z
  /\ (63840438000 < 63840443400)%Z.
Proof. split_and!; [reflexivity | vm_compute; reflexivity | vm_compute; reflexivity | lia]. Qed.

(** ** Cursor-following loops *)

Lemma with_calls_app (w : world) (a b : list request) :
  with_calls (with_calls w a) b = with_calls w (a ++ b).
Proof. unfold with_calls; simpl. by rewrite app_assoc. Qed.

Lemma record_call_with_calls (r : request) (w : world) :
  record_call r w = with_calls w [r].
Proof. done. Qed.

(** One pass of a loop is a call of [run_query] followed by the body. *)
Lemma while_has_next_pass {A} q variables (body : data -> A -> pass A)
    cursor acc script w :
  while_has_next q variables body cursor acc script w
  = bind (run_query q (variables cursor))
         (fun d => match body d acc with
                   | Throw e => raise e
                   | Break acc' => ret acc'
                   | Next acc' cursor' has_next =>
                       if has_next
                       then while_has_next q variables body cursor' acc'
                       else ret acc'
                   end) script w.
Proof.
  unfold bind, run_query. destruct script as [|r rest]; simpl; [done|].
  destruct (respond r _) as [[d|e] w']; [|done].
  destruct (body d acc) as [acc' cursor' [|]| |]; done.
Qed.

Section pages.
Context {A N : Type}.
Variable q : query.
Variable variables : option string -> dict (option string).
Variable body : data -> A -> pass A.
Variable wrap : page N -> response.
Variable step : A -> page N -> A.
Hypothesis wrap_data : forall p, exists d, wrap p = Data d /\
  forall acc, body d acc = next_page (step acc p) p.

(** A loop whose body falls through on every page reads the pages up to the
    first that announces no successor, sends one request per page read, and
    leaves the rest of the script untouched. *)
Lemma while_has_next_paged pre last rest cursor acc w :
  while_has_next q variables body cursor acc (map wrap (paged pre last) ++ rest) w
  = (Return (fold_left step (paged pre last) acc),
     (rest, with_calls w (requests q variables (cursor :: map snd pre)))).
Proof.
  unfold paged. revert cursor acc w.
  induction pre as [|np pre IH]; intros cursor acc w; simpl.
  - destruct (wrap_data (final last)) as (d & -> & Hbody). simpl.
    rewrite Hbody. done.
  - destruct (wrap_data (more np)) as (d & -> & Hbody). simpl.
    rewrite Hbody. simpl. rewrite IH, record_call_with_calls, with_calls_app.
    done.
Qed.

End pages.

Lemma fold_left_app_nodes {N} (pages : list (page N)) (acc : list N) :
  fold_left (fun acc p => acc ++ nodes p) pages acc = acc ++ all_nodes pages.
Proof.
  unfold all_nodes. revert acc.
  induction pages as [|p pages IH]; intros acc; simpl.
  - by rewrite app_nil_r.
  - by rewrite IH, app_assoc.
Qed.

Lemma record_events_app (d : dict string) (e1 e2 : list (string * string)) :
  record_events d (e1 ++ e2) = record_events (record_events d e1) e2.
Proof. unfold record_events. by rewrite fold_left_app. Qed.

Lemma record_commit_nodes_events (ns : list commit_node) (d : dict string) :
  record_commit_nodes d ns = record_events d (commit_events ns).
Proof.
  revert d. induction ns as [|[[[login|] date]] ns IH]; intros d; simpl; [done|..].
  - apply IH.
  - apply IH.
Qed.

Lemma record_issue_nodes_events (ns : list issue_node) (d : dict string) :
  record_issue_nodes d ns = record_events d (issue_events ns).
Proof.
  revert d. induction ns as [|[[login|] date] ns IH]; intros d; simpl; [done|..].
  - apply IH.
  - apply IH.
Qed.

Lemma commit_events_app (a b : list commit_node) :
  commit_events (a ++ b) = commit_events a ++ commit_events b.
Proof. unfold commit_events. apply omap_app. Qed.

Lemma issue_events_app (a b : list issue_node) :
  issue_events (a ++ b) = issue_events a ++ issue_events b.
Proof. unfold issue_events. apply omap_app. Qed.

Lemma fold_left_commit_pages (pages : list (page commit_node)) (d : dict string) :
  fold_left (fun acc p => record_commit_nodes acc (nodes p)) pages d
  = record_events d (commit_events (all_nodes pages)).
Proof.
  unfold all_nodes. revert d. induction pages as [|p pages IH]; intros d; simpl; [done|].
  by rewrite IH, commit_events_app, record_events_app, record_commit_nodes_events.
Qed.

Lemma fold_left_issue_pages (pages : list (page issue_node)) (d : dict string) :
  fold_left (fun acc p => record_issue_nodes acc (nodes p)) pages d
  = record_events d (issue_events (all_nodes pages)).
Proof.
  unfold all_nodes. revert d. induction pages as [|p pages IH]; intros d; simpl; [done|].
  by rewrite IH, issue_events_app, record_events_app, record_issue_nodes_events.
Qed.

Lemma members_paged org pre last rest w :
  get_all_org_members_for_org org (map members_data (paged pre last) ++ rest) w
  = (Return (all_nodes (paged pre last)),
     (rest, with_calls w (requests Q_members (members_vars org) (cursors_sent pre)))).
Proof.
  unfold get_all_org_members_for_org.
  rewrite (while_has_next_paged _ _ _ members_data (fun acc p => acc ++ nodes p)).
  - by rewrite fold_left_app_nodes.
  - intros p. by eexists.
Qed.

Lemma repositories_paged org pre last rest w :
  get_repositories_for_org org (map repositories_data (paged pre last) ++ rest) w
  = (Return (all_nodes (paged pre last)),
     (rest, with_calls w (requests Q_repositories (repositories_vars org) (cursors_sent pre)))).
Proof.
  unfold get_repositories_for_org.
  rewrite (while_has_next_paged _ _ _ repositories_data (fun acc p => acc ++ nodes p)).
  - by rewrite fold_left_app_nodes.
  - intros p. by eexists.
Qed.

Lemma branches_paged org repo pre last rest w :
  get_all_branches repo org (map refs_data (paged pre last) ++ rest) w
  = (Return (all_nodes (paged pre last)),
     (rest, with_calls w (requests Q_refs (refs_vars org repo) (cursors_sent pre)))).
Proof.
  unfold get_all_branches.
  rewrite (while_has_next_paged _ _ _ refs_data (fun acc p => acc ++ nodes p)).
  - by rewrite fold_left_app_nodes.
  - intros p. by eexists.
Qed.

Lemma commits_paged org repo branch since_iso pre last rest activity w :
  commits_loop org repo branch since_iso activity
    (map history_data (paged pre last) ++ rest) w
  = (Return (record_events activity (commit_events (all_nodes (paged pre last)))),
     (rest, with_calls w (requests Q_commits (commits_vars org repo branch since_iso)
                                   (cursors_sent pre)))).
Proof.
  unfold commits_loop.
  rewrite (while_has_next_paged _ _ _ history_data
             (fun acc p => record_commit_nodes acc (nodes p))).
  - by rewrite fold_left_commit_pages.
  - intros p. by eexists.
Qed.

Lemma issues_paged org repo pre last rest activity w :
  issues_loop org repo activity (map issues_data (paged pre last) ++ rest) w
  = (Return (record_events activity (issue_events (all_nodes (paged pre last)))),
     (rest, with_calls w (requests Q_issues (issues_vars org repo) (cursors_sent pre)))).
Proof.
  unfold issues_loop.
  rewrite (while_has_next_paged _ _ _ issues_data
             (fun acc p => record_issue_nodes acc (nodes p))).
  - by rewrite fold_left_issue_pages.
  - intros p. by eexists.
Qed.

Lemma prs_paged org repo pre last rest activity w :
  prs_loop org repo activity (map prs_data (paged pre last) ++ rest) w
  = (Return (record_events activity (issue_events (all_nodes (paged pre last)))),
     (rest, with_calls w (requests Q_prs (prs_vars org repo) (cursors_sent pre)))).
Proof.
  unfold prs_loop.
  rewrite (while_has_next_paged _ _ _ prs_data
             (fun acc p => record_issue_nodes acc (nodes p))).
  - by rewrite fold_left_issue_pages.
  - intros p. by eexists.
Qed.

Lemma collect_branch_activity_paged org repo branch since_iso
    cpre clast ipre ilast ppre plast rest w :
  collect_branch_activity org repo branch since_iso
    (map history_data (paged cpre clast) ++ map issues_data (paged ipre ilast)
     ++ map prs_data (paged ppre plast) ++ rest) w
  = (Return (record_events Dict.empty
               (commit_events (all_nodes (paged cpre clast))
                ++ issue_events (all_nodes (paged ipre ilast))
                ++ issue_events (all_nodes (paged ppre plast)))),
     (rest,
      with_calls w
        (requests Q_commits (commits_vars org repo branch since_iso) (cursors_sent cpre)
         ++ requests Q_issues (issues_vars org repo) (cursors_sent ipre)
         ++ requests Q_prs (prs_vars org repo) (cursors_sent ppre)))).
Proof.
  unfold collect_branch_activity, bind.
  rewrite commits_paged, issues_paged, prs_paged.
  by rewrite !record_events_app, !with_calls_app.
Qed.

(** C2.  Served the pages of a collection, each traversal returns the nodes
    of all the pages in the order of arrival (the branch history: the
    mapping that records, in that order, the events of the commits, then of
    the issues, then of the pull requests).  It sends one request per page,
    the first without a cursor and each next one with the cursor of the page
    before, and it leaves on the script whatever follows the page that
    announced no successor. *)
Theorem traversals_accumulate_all_pages (org repo branch since_iso : string)
    (rest : list response) (w : world) :
  (forall pre last,
     get_all_org_members_for_org org (map members_data (paged pre last) ++ rest) w
     = (Return (all_nodes (paged pre last)),
        (rest, with_calls w (requests Q_members (members_vars org) (cursors_sent pre)))))
  /\ (forall pre last,
     get_repositories_for_org org (map repositories_data (paged pre last) ++ rest) w
     = (Return (all_nodes (paged pre last)),
        (rest, with_calls w (requests Q_repositories (repositories_vars org)
                                      (cursors_sent pre)))))
  /\ (forall pre last,
     get_all_branches repo org (map refs_data (paged pre last) ++ rest) w
     = (Return (all_nodes (paged pre last)),
        (rest, with_calls w (requests Q_refs (refs_vars org repo) (cursors_sent pre)))))
  /\ (forall cpre clast ipre ilast ppre plast,
     collect_branch_activity org repo branch since_iso
       (map history_data (paged cpre clast) ++ map issues_data (paged ipre ilast)
        ++ map prs_data (paged ppre plast) ++ rest) w
     = (Return (record_events Dict.empty
                  (commit_events (all_nodes (paged cpre clast))
                   ++ issue_events (all_nodes (paged ipre ilast))
                   ++ issue_events (all_nodes (paged ppre plast)))),
        (rest,
         with_calls w
           (requests Q_commits (commits_vars org repo branch since_iso) (cursors_sent cpre)
            ++ requests Q_issues (issues_vars org repo) (cursors_sent ipre)
            ++ requests Q_prs (prs_vars org repo) (cursors_sent ppre))))).
Proof.
  split_and!; intros.
  - apply members_paged.
  - apply repositories_paged.
  - apply branches_paged.
  - apply collect_branch_activity_paged.
Qed.

(** Three pages of members, and a page that the traversal must not read. *)
Example members_three_pages :
  run (get_all_org_members_for_org "acme")
      [members_data (more (["ann"; "bo"], Some "c1"));
       members_data (more (["cy"], Some "c2"));
       members_data (final (["di"], Some "c3"));
       members_data (final (["eve"], None))]
  = (Return ["ann"; "bo"; "cy"; "di"],
     ([members_data (final (["eve"], None))],
      with_calls initial_world
        [ {| req_query := Q_members; req_variables := members_vars "acme" None |};
          {| req_query := Q_members; req_variables := members_vars "acme" (Some "c1") |};
          {| req_query := Q_members; req_variables := members_vars "acme" (Some "c2") |} ])).
Proof. reflexivity. Qed.

(** ** Branches without commits *)

(** C7.  When the first answer to the commit query has no [ref], or a
    [ref] without [target], the commit loop ends after that one request,
    returns the mapping it was given and raises nothing; the activity of the
    branch is then what its issues and pull requests give. *)
Theorem absent_ref_yields_no_commits (org repo branch since_iso : string)
    (target_only : bool) (rest : list response) (w : world) :
  (forall activity,
     commits_loop org repo branch since_iso activity (absent_ref target_only :: rest) w
     = (Return activity,
        (rest, with_calls w (requests Q_commits (commits_vars org repo branch since_iso)
                                      [None]))))
  /\ (forall ipre ilast ppre plast,
     collect_branch_activity org repo branch since_iso
       (absent_ref target_only :: map issues_data (paged ipre ilast)
        ++ map prs_data (paged ppre plast) ++ rest) w
     = (Return (record_events Dict.empty
                  (issue_events (all_nodes (paged ipre ilast))
                   ++ issue_events (all_nodes (paged ppre plast)))),
        (rest,
         with_calls w
           (requests Q_commits (commits_vars org repo branch since_iso) [None]
            ++ requests Q_issues (issues_vars org repo) (cursors_sent ipre)
            ++ requests Q_prs (prs_vars org repo) (cursors_sent ppre))))).
Proof.
  assert (forall activity rest' w',
     commits_loop org repo branch since_iso activity (absent_ref target_only :: rest') w'
     = (Return activity,
        (rest', with_calls w' (requests Q_commits (commits_vars org repo branch since_iso)
                                        [None])))) as Hloop.
  { intros activity rest' w'. by destruct target_only. }
  split; [intros; apply Hloop|].
  intros ipre ilast ppre plast.
  unfold collect_branch_activity, bind.
  rewrite Hloop, issues_paged, prs_paged.
  by rewrite !record_events_app, !with_calls_app.
Qed.

(** ** The cutoff and the three queries of a branch *)

Lemma respond_beside (r : response) (w1 w2 : world) :
  beside_calls w1 = beside_calls w2 ->
  (respond r w1).1 = (respond r w2).1
  /\ beside_calls (respond r w1).2 = beside_calls (respond r w2).2.
Proof.
  unfold beside_calls. intros [= Hout Hfiles Hclock Hslept].
  destruct r; simpl; rewrite ?Hout, ?Hfiles, ?Hclock, ?Hslept; done.
Qed.

(** The variables sent with the requests of a loop have no part in what
    the loop computes. *)
Lemma while_has_next_variables {A} q variables1 variables2
    (body : data -> A -> pass A) script cursor acc w1 w2 :
  beside_calls w1 = beside_calls w2 ->
  agree (while_has_next q variables1 body cursor acc script w1)
        (while_has_next q variables2 body cursor acc script w2).
Proof.
  revert cursor acc w1 w2.
  induction script as [|r rest IH]; intros cursor acc w1 w2 Hw; simpl.
  - done.
  - destruct (respond_beside r
                (record_call {| req_query := q; req_variables := variables1 cursor |} w1)
                (record_call {| req_query := q; req_variables := variables2 cursor |} w2))
      as [Ho Hb]; [done|].
    destruct (respond r (record_call _ w1)) as [o1 w1'].
    destruct (respond r (record_call _ w2)) as [o2 w2'].
    simpl in Ho, Hb. subst o2.
    destruct o1 as [d|e]; [|done].
    destruct (body d acc) as [acc' cursor' [|]| |]; try done.
    by apply IH.
Qed.

Lemma agree_bind {A B} (m1 m2 : M A) (k1 k2 : A -> M B) script w1 w2 :
  agree (m1 script w1) (m2 script w2) ->
  (forall a script' w1' w2',
      beside_calls w1' = beside_calls w2' ->
      agree (k1 a script' w1') (k2 a script' w2')) ->
  agree (bind m1 k1 script w1) (bind m2 k2 script w2).
Proof.
  unfold bind. intros (Ho & Hs & Hb) Hk.
  destruct (m1 script w1) as [o1 [s1 w1']], (m2 script w2) as [o2 [s2 w2']].
  simpl in Ho, Hs, Hb. subst o2 s2.
  destruct o1 as [a|e]; [by apply Hk | done].
Qed.

Lemma collect_branch_activity_since org repo branch since1 since2 script w :
  agree (collect_branch_activity org repo branch since1 script w)
        (collect_branch_activity org repo branch since2 script w).
Proof.
  unfold collect_branch_activity.
  apply agree_bind; [by apply while_has_next_variables|].
  intros activity script' w1 w2 Hw.
  apply agree_bind; [by apply while_has_next_variables|].
  intros activity' script'' w1' w2' Hw'.
  by apply while_has_next_variables.
Qed.

(** What a computation sends. *)
Lemma respond_calls (r : response) (w : world) : w_calls (respond r w).2 = w_calls w.
Proof. by destruct r. Qed.

Lemma sends_bind {A B} (P : request -> Prop) (m : M A) (k : A -> M B) :
  sends P m -> (forall a, sends P (k a)) -> sends P (bind m k).
Proof.
  intros Hm Hk script w. unfold bind.
  destruct (Hm script w) as (sent1 & E1 & P1).
  destruct (m script w) as [[a|e] [s1 w1]]; simpl in E1.
  - destruct (Hk a s1 w1) as (sent2 & E2 & P2).
    exists (sent1 ++ sent2). rewrite E2, E1, <- app_assoc.
    split; [done | by apply Forall_app].
  - by exists sent1.
Qed.

Lemma sends_while_has_next {A} (P : request -> Prop) q variables
    (body : data -> A -> pass A) cursor acc :
  (forall c, P {| req_query := q; req_variables := variables c |}) ->
  sends P (while_has_next q variables body cursor acc).
Proof.
  intros HP script. revert cursor acc.
  induction script as [|r rest IH]; intros cursor acc w; simpl.
  - exists [ {| req_query := q; req_variables := variables cursor |} ].
    split; [done | by constructor].
  - pose proof (respond_calls r
      (record_call {| req_query := q; req_variables := variables cursor |} w)) as Hc.
    destruct (respond r _) as [[d|e] w1]; simpl in Hc.
    + destruct (body d acc) as [acc' cursor' [|]| |]; simpl;
        try (exists [ {| req_query := q; req_variables := variables cursor |} ];
             split; [done | by constructor]).
      destruct (IH cursor' acc' w1) as (sent & E & Hsent).
      exists ({| req_query := q; req_variables := variables cursor |} :: sent).
      rewrite E, Hc. simpl. rewrite <- app_assoc.
      split; [done | by constructor].
    + simpl. exists [ {| req_query := q; req_variables := variables cursor |} ].
      split; [done | by constructor].
Qed.

Lemma since_with_commits_only_commits org repo branch since_iso cursor :
  since_with_commits_only since_iso
    {| req_query := Q_commits;
       req_variables := commits_vars org repo branch since_iso cursor |}.
Proof. unfold since_with_commits_only; simpl. auto 10. Qed.

Lemma since_with_commits_only_issues org repo since_iso cursor :
  since_with_commits_only since_iso
    {| req_query := Q_issues; req_variables := issues_vars org repo cursor |}.
Proof.
  unfold since_with_commits_only; simpl. split_and!; try done.
  - intuition discriminate.
  - repeat constructor; simpl; discriminate.
  - auto.
Qed.

Lemma since_with_commits_only_prs org repo since_iso cursor :
  since_with_commits_only since_iso
    {| req_query := Q_prs; req_variables := prs_vars org repo cursor |}.
Proof.
  unfold since_with_commits_only; simpl. split_and!; try done.
  - intuition discriminate.
  - repeat constructor; simpl; discriminate.
  - auto.
Qed.

(** C6.  The cutoff bounds the commit history alone.  Whatever the endpoint
    answers, every request that [collect_branch_activity] sends is a commit
    request, whose query gives [$since] to the history and which carries the
    cutoff, or an issue or pull-request request, whose query declares no
    such variable, orders by [UPDATED_AT] descending, and which is sent
    without the cutoff.  Served the pages of the three collections, it sends
    exactly one request per page, the commit requests with the cutoff and
    the others without, and records the events of every page of issues and
    of pull requests up to the page that announces no successor, whatever
    the dates on the pages; so does each of the three loops alone.  And the
    cutoff changes nothing of what the program computes for a branch beside
    the requests it sends. *)
Theorem since_bounds_only_the_commit_history (org repo branch since_iso : string) :
  sends (since_with_commits_only since_iso)
        (collect_branch_activity org repo branch since_iso)
  /\ (forall cpre clast ipre ilast ppre plast rest w,
        collect_branch_activity org repo branch since_iso
          (map history_data (paged cpre clast) ++ map issues_data (paged ipre ilast)
           ++ map prs_data (paged ppre plast) ++ rest) w
        = (Return (record_events Dict.empty
                     (commit_events (all_nodes (paged cpre clast))
                      ++ issue_events (all_nodes (paged ipre ilast))
                      ++ issue_events (all_nodes (paged ppre plast)))),
           (rest,
            with_calls w
              (map (fun cursor =>
                      {| req_query := Q_commits;
                         req_variables :=
                           [("owner", Some org); ("name", Some repo);
                            ("branch", Some branch); ("since", Some since_iso);
                            ("cursor", cursor)] |}) (cursors_sent cpre)
               ++ map (fun cursor =>
                         {| req_query := Q_issues;
                            req_variables :=
                              [("owner", Some org); ("name", Some repo);
                               ("cursor", cursor)] |}) (cursors_sent ipre)
               ++ map (fun cursor =>
                         {| req_query := Q_prs;
                            req_variables :=
                              [("owner", Some org); ("name", Some repo);
                               ("cursor", cursor)] |}) (cursors_sent ppre)))))
  /\ (forall pre last rest activity w,
        commits_loop org repo branch since_iso activity
          (map history_data (paged pre last) ++ rest) w
        = (Return (record_events activity (commit_events (all_nodes (paged pre last)))),
           (rest, with_calls w (requests Q_commits (commits_vars org repo branch since_iso)
                                         (cursors_sent pre)))))
  /\ (In ("since", "$since") (arguments (document Q_commits))
      /\ forall cursor,
           Dict.get (commits_vars org repo branch since_iso cursor) "since"
           = Some (Some since_iso))
  /\ Forall (fun q =>
        ~ In "since" (declares (document q))
        /\ Forall (fun a => a.1 <> "since" /\ a.2 <> "$since") (arguments (document q))
        /\ In ("orderBy", "{field: UPDATED_AT, direction: DESC}") (arguments (document q)))
       [Q_issues; Q_prs]
  /\ (forall cursor,
        Dict.get (issues_vars org repo cursor) "since" = None
        /\ Dict.get (prs_vars org repo cursor) "since" = None)
  /\ (forall pre last rest activity w,
        issues_loop org repo activity (map issues_data (paged pre last) ++ rest) w
        = (Return (record_events activity (issue_events (all_nodes (paged pre last)))),
           (rest, with_calls w (requests Q_issues (issues_vars org repo) (cursors_sent pre)))))
  /\ (forall pre last rest activity w,
        prs_loop org repo activity (map prs_data (paged pre last) ++ rest) w
        = (Return (record_events activity (issue_events (all_nodes (paged pre last)))),
           (rest, with_calls w (requests Q_prs (prs_vars org repo) (cursors_sent pre)))))
  /\ (forall other_since script w,
        agree (collect_branch_activity org repo branch since_iso script w)
              (collect_branch_activity org repo branch other_since script w)).
Proof.
  split_and!.
  - unfold collect_branch_activity, commits_loop, issues_loop, prs_loop.
    apply sends_bind.
    { apply sends_while_has_next. apply since_with_commits_only_commits. }
    intros activity. apply sends_bind.
    { apply sends_while_has_next. apply since_with_commits_only_issues. }
    intros activity'. apply sends_while_has_next. apply since_with_commits_only_prs.
  - intros. apply collect_branch_activity_paged.
  - intros. apply commits_paged.
  - simpl. auto.
  - done.
  - repeat constructor; simpl; try discriminate; intuition discriminate.
  - done.
  - intros. apply issues_paged.
  - intros. apply prs_paged.
  - intros. apply collect_branch_activity_since.
Qed.

(** ** The report *)

Lemma dict_set_set {V} (d : dict V) (k : string) (v1 v2 : V) :
  Dict.set (Dict.set d k v1) k v2 = Dict.set d k v2.
Proof.
  induction d as [|[k' v'] d IH]; simpl.
  - by rewrite String.eqb_refl.
  - destruct (String.eqb_spec k k') as [->|Hne]; simpl.
    + by rewrite String.eqb_refl.
    + apply String.eqb_neq in Hne as ->. by rewrite IH.
Qed.

Lemma with_file_again (w : world) filename rows rows' :
  with_file (with_file w filename rows) filename rows' = with_file w filename rows'.
Proof. unfold with_file, set_files; simpl. by rewrite dict_set_set. Qed.

Lemma open_w_file filename script w :
  open_w filename script w = (Return tt, (script, with_file w filename [])).
Proof. done. Qed.

Lemma writerow_file filename r rows script w :
  writerow filename r script (with_file w filename rows)
  = (Return tt, (script, with_file w filename (rows ++ [r]))).
Proof.
  unfold writerow, modify. cbn [with_file set_files w_files].
  rewrite dict_get_set_eq. do 2 f_equal.
  apply (with_file_again w filename rows).
Qed.

Lemma activity_row_observed since_date filename (o : observed) rows script w :
  o_valid o ->
  activity_row since_date filename (o_entry o) tt script (with_file w filename rows)
  = (Return tt, (script, with_file w filename (rows ++ [observed_row since_date o]))).
Proof.
  intros Hvalid. unfold activity_row, o_entry, o_timestamp.
  rewrite slice_wall_clock, strptime_wall_clock by done.
  unfold bind, lift, ret. by rewrite writerow_file.
Qed.

Lemma activity_rows_observed since_date filename (obs : list observed) rows script w :
  Forall o_valid obs ->
  for_each (map o_entry obs) (activity_row since_date filename) tt script
           (with_file w filename rows)
  = (Return tt,
     (script, with_file w filename (rows ++ map (observed_row since_date) obs))).
Proof.
  intros Hall. revert rows.
  induction Hall as [|o obs Ho Hall IH]; intros rows; cbn [map for_each].
  - unfold ret. by rewrite app_nil_r.
  - unfold bind. rewrite activity_row_observed by done.
    rewrite IH. by rewrite <- app_assoc.
Qed.

Lemma never_active_rows filename (users : list string) rows script w :
  for_each users (never_active_row filename) tt script (with_file w filename rows)
  = (Return tt, (script, with_file w filename (rows ++ map never_row users))).
Proof.
  revert rows. induction users as [|user users IH]; intros rows; cbn [map for_each].
  - unfold ret. by rewrite app_nil_r.
  - unfold bind, never_active_row. rewrite writerow_file.
    rewrite IH. by rewrite <- app_assoc.
Qed.

Lemma write_report_observed filename since_date (obs : list observed)
    (never_active : gset string) script w :
  Forall o_valid obs ->
  write_report filename since_date (map o_entry obs) never_active script w
  = (Return tt,
     (script,
      with_file w filename
        (header :: map (observed_row since_date) obs
         ++ map never_row (sorted never_active)))).
Proof.
  intros Hall. unfold write_report, bind, Dict.items.
  rewrite open_w_file, writerow_file, activity_rows_observed by done.
  by rewrite never_active_rows, <- app_assoc.
Qed.

(** [sorted] lists the members of the set, each once, in ascending
    order. *)
Lemma sorted_elem (s : gset string) (x : string) : x ∈ sorted s <-> x ∈ s.
Proof. unfold sorted. by rewrite merge_sort_Permutation, elem_of_elements. Qed.

Lemma sorted_NoDup (s : gset string) : NoDup (sorted s).
Proof. unfold sorted. rewrite merge_sort_Permutation. apply NoDup_elements. Qed.

Lemma sorted_ascending (s : gset string) : StronglySorted String.le (sorted s).
Proof. unfold sorted. apply StronglySorted_merge_sort; apply _. Qed.

Lemma never_active_users_elem members (overall_activity : dict string) user :
  user ∈ never_active_users members overall_activity
  <-> user ∈ members /\ Dict.get overall_activity user = None.
Proof.
  unfold never_active_users.
  rewrite elem_of_difference, !elem_of_list_to_set, dict_get_None. done.
Qed.

(** C3.  No login is both never-active and a key of the activity mapping:
    the never-active set is the members that the mapping does not hold. *)
Theorem never_active_disjoint_from_activity (members : list string)
    (overall_activity : dict string) :
  never_active_users members overall_activity
    ∩ list_to_set (Dict.keys overall_activity) = (∅ : gset string)
  /\ (forall user,
        user ∈ never_active_users members overall_activity <->
        user ∈ members /\ Dict.get overall_activity user = None)
  /\ Forall (fun user => Dict.mem overall_activity user = false)
            (sorted (never_active_users members overall_activity)).
Proof.
  split_and!.
  - apply elem_of_equiv_empty_L. unfold never_active_users.
    intros user [[_ Hnot]%elem_of_difference Hin]%elem_of_intersection. done.
  - apply never_active_users_elem.
  - apply Forall_forall.
    intros user [_ Hnone]%sorted_elem%never_active_users_elem.
    unfold Dict.mem. by rewrite Hnone.
Qed.

(** Members [a], [b] and [c] with activity seen for [a] alone. *)
Lemma never_active_disjoint_from_activity_witness :
  sorted (never_active_users ["c"; "a"; "b"] [("a", "2024-01-10T00:00:00Z")]) = ["b"; "c"]
  /\ never_active_users ["c"; "a"; "b"] [("a", "2024-01-10T00:00:00Z")]
       ∩ list_to_set (Dict.keys [("a", "2024-01-10T00:00:00Z")]) = (∅ : gset string).
Proof.
  split; [vm_compute; reflexivity|].
  exact (proj1 (never_active_disjoint_from_activity
                  ["c"; "a"; "b"] [("a", "2024-01-10T00:00:00Z")])).
Defined.

(** C5.  For an activity mapping whose timestamps are well formed the
    report holds the header, then one row per entry of the mapping, in the
    order of the mapping, with the login, the date as day-month-year and
    [true] when the date and time of its first nineteen characters, read as
    UTC whatever offset follows them, is at or after the cutoff and [false]
    when it is before; then one row per never-active login with
    [N/A] and [never-active], the logins ascending and each once. *)
Theorem report_rows (filename : string) (since_date : datetime)
    (obs : list observed) (never_active : gset string)
    (script : list response) (w : world) :
  Forall o_valid obs ->
  write_report filename since_date (map o_entry obs) never_active script w
  = (Return tt,
     (script,
      with_file w filename
        (["Users"; "Last activity"; "active"]
         :: map (observed_row since_date) obs
         ++ map (fun user => [user; "N/A"; "never-active"]) (sorted never_active))))
  /\ Dict.get (w_files (with_file w filename
        (["Users"; "Last activity"; "active"]
         :: map (observed_row since_date) obs
         ++ map (fun user => [user; "N/A"; "never-active"]) (sorted never_active))))
       filename
     = Some (["Users"; "Last activity"; "active"]
             :: map (observed_row since_date) obs
             ++ map (fun user => [user; "N/A"; "never-active"]) (sorted never_active))
  /\ StronglySorted String.le (sorted never_active)
  /\ NoDup (sorted never_active)
  /\ (forall user, user ∈ sorted never_active <-> user ∈ never_active).
Proof.
  intros Hall. split_and!.
  - by apply write_report_observed.
  - unfold with_file, set_files; simpl. apply dict_get_set_eq.
  - apply sorted_ascending.
  - apply sorted_NoDup.
  - apply sorted_elem.
Qed.

(** Two observed logins and two members never seen. *)
Lemma report_rows_witness :
  write_report "report.csv" (mk_datetime 2024 1 15 12 0 0 0)
    [("alice", "2024-01-10T00:00:00Z"); ("bob", "2024-02-01T00:00:00Z")]
    (list_to_set ["carol"; "aaron"]) [] initial_world
  = (Return tt,
     ([], with_file initial_world "report.csv"
            [["Users"; "Last activity"; "active"];
             ["alice"; "10-01-2024"; "false"];
             ["bob"; "01-02-2024"; "true"];
             ["aaron"; "N/A"; "never-active"];
             ["carol"; "N/A"; "never-active"]])).
Proof.
  assert (Forall o_valid
            [ {| o_login := "alice"; o_year := 2024; o_month := 1; o_day := 10;
                 o_hour := 0; o_minute := 0; o_second := 0; o_suffix := "Z" |};
              {| o_login := "bob"; o_year := 2024; o_month := 2; o_day := 1;
                 o_hour := 0; o_minute := 0; o_second := 0; o_suffix := "Z" |} ])
    as Hvalid.
  { repeat constructor; vm_compute; intros; discriminate. }
  exact (proj1 (report_rows "report.csv" (mk_datetime 2024 1 15 12 0 0 0) _
                  (list_to_set ["carol"; "aaron"]) [] initial_world Hvalid)).
Defined.

(** The tag compares the first nineteen characters, read as UTC, with the
    cutoff, and not the moment the timestamp denotes.  Against a cutoff of
    midnight UTC of 10 January, a commit dated 01:00 at two hours ahead of
    UTC (23:00 UTC of the 9th, before the cutoff) is tagged [true], and one
    dated 23:30 of the 9th at five hours behind UTC (04:30 UTC of the 10th,
    after the cutoff) is tagged [false]. *)
Lemma report_tags_the_wall_clock :
  write_report "report.csv" (mk_datetime 2024 1 10 0 0 0 0)
    [("dev", "2024-01-10T01:00:00+02:00"); ("west", "2024-01-09T23:30:00-05:00")]
    ∅ [] initial_world
  = (Return tt,
     ([], with_file initial_world "report.csv"
            [["Users"; "Last activity"; "active"];
             ["dev"; "10-01-2024"; "true"];
             ["west"; "09-01-2024"; "false"]]))
  /\ seconds_of_datetime (mk_datetime 2024 1 10 0 0 0 0) = 63840441600%Z
  /\ moment "2024-01-10T01:00:00+02:00" = Some 63840438000%Z
  /\ (63840438000 < 63840441600)%Z
  /\ moment "2024-01-09T23:30:00-05:00" = Some 63840457800%Z
  /\ (63840441600 <= 63840457800)%Z.
Proof.
  split_and!; [vm_compute; reflexivity | vm_compute; reflexivity | vm_compute; reflexivity
              | lia | vm_compute; reflexivity | lia].
Qed.

Lemma slice_to_idem (n : nat) (s : string) : slice_to n (slice_to n s) = slice_to n s.
Proof.
  revert s. induction n as [|n IH]; intros [|c s]; simpl; try done.
  by rewrite IH.
Qed.

(** C10.  The row of an entry is computed from the first nineteen
    characters of its timestamp alone, and for a well-formed timestamp the
    tag compares the date and time written there, taken as UTC, with the
    cutoff, whatever offset follows them. *)
Theorem classification_reads_wall_clock_as_utc (since_date : datetime)
    (filename user : string) (y m d hh mm ss : Z) (suffix : string)
    (rows : list row) (script : list response) (w : world) :
  valid_fields y m d hh mm ss ->
  activity_row since_date filename (user, (wall_clock y m d hh mm ss ++ suffix)%string) tt
               script (with_file w filename rows)
  = (Return tt,
     (script,
      with_file w filename
        (rows ++ [[user;
                   (dec 2 d ++ "-" ++ dec 2 m ++ "-" ++ dec 4 y)%string;
                   str_lower_bool
                     (datetime_ge (mk_datetime y m d hh mm ss 0) since_date)]])))
  /\ (forall last_iso,
        activity_row since_date filename (user, last_iso) tt
        = activity_row since_date filename (user, slice_to 19 last_iso) tt).
Proof.
  intros Hvalid. split.
  - apply (activity_row_observed since_date filename
             {| o_login := user; o_year := y; o_month := m; o_day := d;
                o_hour := hh; o_minute := mm; o_second := ss; o_suffix := suffix |}).
    done.
  - intros last_iso. unfold activity_row. by rewrite slice_to_idem.
Qed.

(** A commit written at 01:00 with offset [+02:00] was made at 23:00 UTC of
    the day before, which is before the cutoff of midnight; its row says
    [true], as the row of the same wall-clock time in UTC does. *)
Lemma classification_reads_wall_clock_as_utc_witness :
  activity_row (mk_datetime 2024 1 10 0 0 0 0) "report.csv"
               ("dev", "2024-01-10T01:00:00+02:00") tt [] (with_file initial_world "report.csv" [])
  = (Return tt,
     ([], with_file initial_world "report.csv" [["dev"; "10-01-2024"; "true"]]))
  /\ activity_row (mk_datetime 2024 1 10 0 0 0 0) "report.csv"
                  ("dev", "2024-01-10T01:00:00+02:00") tt
     = activity_row (mk_datetime 2024 1 10 0 0 0 0) "report.csv"
                    ("dev", "2024-01-10T01:00:00") tt.
Proof.
  assert (valid_fields 2024 1 10 1 0 0) as Hvalid
    by (vm_compute; repeat split; intros; discriminate).
  destruct (classification_reads_wall_clock_as_utc
              (mk_datetime 2024 1 10 0 0 0 0) "report.csv" "dev"
              2024 1 10 1 0 0 "+02:00" [] [] initial_world Hvalid) as [Hrow Hslice].
  split; [exact Hrow | exact (Hslice "2024-01-10T01:00:00+02:00")].
Defined.

(** ** The orchestrator *)

Lemma print_printed (m : msg) script w :
  print m script w = (Return tt, (script, printed w [m])).
Proof. done. Qed.

(** C9.  With no organization configured [main] prints the request to set
    [ORG_NAMES] and returns: no request is sent, no file is written, the
    clock is not read and the script is left as it was. *)
Theorem no_organizations_no_report (DAYS_INACTIVE_THRESHOLD : Z)
    (clock : nat -> datetime) (script : list response) (w : world) :
  main [] DAYS_INACTIVE_THRESHOLD clock script w
  = (Return tt, (script, printed w [Msg_set_org_names]))
  /\ w_calls (printed w [Msg_set_org_names]) = w_calls w
  /\ w_files (printed w [Msg_set_org_names]) = w_files w
  /\ w_clock (printed w [Msg_set_org_names]) = w_clock w.
Proof. done. Qed.

Lemma returns_ret {A} (a : A) : returns (ret a).
Proof. intros script w. by eexists _, _, _. Qed.

Lemma returns_print (m : msg) : returns (print m).
Proof. intros script w. by eexists _, _, _. Qed.

Lemma returns_sleep (seconds : Z) : returns (sleep seconds).
Proof. intros script w. by eexists _, _, _. Qed.

Lemma returns_bind {A B} (m : M A) (k : A -> M B) :
  returns m -> (forall a, returns (k a)) -> returns (bind m k).
Proof.
  intros Hm Hk script w. unfold bind.
  destruct (Hm script w) as (a & script' & w' & ->). apply Hk.
Qed.

(** A [try] whose handler returns normally returns normally, whatever the
    body raises. *)
Lemma returns_try_except {A} (m : M A) (handler : exn -> M A) :
  (forall e, returns (handler e)) -> returns (try_except m handler).
Proof.
  intros Hh script w. unfold try_except.
  destruct (m script w) as [[a|e] [script' w']].
  - by eexists _, _, _.
  - apply Hh.
Qed.

Lemma returns_for_each {X S} (xs : list X) (body : X -> S -> M S) (s : S) :
  (forall x s', returns (body x s')) -> returns (for_each xs body s).
Proof.
  intros Hbody. revert s. induction xs as [|x xs IH]; intros s; simpl.
  - apply returns_ret.
  - apply returns_bind; [apply Hbody | apply IH].
Qed.

Create HintDb returns.
#[local] Hint Resolve returns_ret returns_print returns_sleep : returns.

Lemma process_branch_returns org repo since_iso br overall_activity :
  returns (process_branch org repo since_iso br overall_activity).
Proof.
  unfold process_branch.
  apply returns_bind; [auto with returns|]. intros _.
  apply returns_try_except. intros e.
  apply returns_bind; auto with returns.
Qed.

Lemma process_repo_returns org since_iso total repo st :
  returns (process_repo org since_iso total repo st).
Proof.
  destruct st as [overall_activity repo_counter]. unfold process_repo.
  apply returns_bind; [auto with returns|]. intros _.
  apply returns_bind.
  - apply returns_try_except. intros e. apply returns_bind; auto with returns.
  - intros [overall_activity' [|]]; [auto with returns|].
    apply returns_bind; [|auto with returns].
    unfold pause_check. destruct (_ =? _)%nat; [|auto with returns].
    apply returns_bind; auto with returns.
Qed.

(** No failure of the endpoint leaves the loop over the repositories. *)
Lemma repositories_loop_returns org since_iso total repos st :
  returns (for_each repos (process_repo org since_iso total) st).
Proof. apply returns_for_each. intros. apply process_repo_returns. Qed.

Lemma process_repo_branches_fail org since_iso total repo overall_activity
    repo_counter script w e script' w' :
  get_all_branches repo org script
    (printed w [Msg_repo (S repo_counter) total repo]) = (Raise e, (script', w')) ->
  process_repo org since_iso total repo (overall_activity, repo_counter) script w
  = (print (Msg_repo_error repo e) ;; pause_check (S repo_counter) ;;
     ret (overall_activity, S repo_counter)) script' w'.
Proof.
  intros Hfail. unfold process_repo, bind at 1. rewrite print_printed.
  unfold bind at 1, try_except, bind at 1. rewrite Hfail.
  unfold bind at 1 3. rewrite print_printed. unfold ret at 1. done.
Qed.

Lemma process_org_reaches_report DAYS_INACTIVE_THRESHOLD clock org script w
    repos script1 w1 since_date :
  get_repositories_for_org org script (printed w [Msg_fetching_repos org])
  = (Return repos, (script1, w1)) ->
  minus_days (clock (w_clock w1)) DAYS_INACTIVE_THRESHOLD = Return since_date ->
  exists st script2 w2,
    for_each repos (process_repo org (isoformat since_date) (length repos))
             (Dict.empty, 0%nat) script1
             (ticked (printed w1 [Msg_total_repos org (length repos)]))
    = (Return st, (script2, w2))
    /\ process_org DAYS_INACTIVE_THRESHOLD clock org tt script w
       = report_phase clock org since_date (fst st) script2 w2.
Proof.
  intros Hrepos Hsince.
  destruct (repositories_loop_returns org (isoformat since_date) (length repos) repos
              (Dict.empty, 0%nat) script1
              (ticked (printed w1 [Msg_total_repos org (length repos)])))
    as (st & script2 & w2 & Hloop).
  exists st, script2, w2. split; [done|].
  unfold process_org, bind at 1. rewrite print_printed.
  unfold bind at 1, try_except, bind at 1. rewrite Hrepos.
  unfold ret at 1. unfold bind at 1. rewrite print_printed.
  unfold bind at 1, now. cbn [w_clock printed].
  unfold bind at 1, lift. rewrite Hsince. unfold ret at 1.
  unfold bind at 1.
  change {| w_calls := w_calls (printed w1 [Msg_total_repos org (length repos)]);
            w_out := _; w_files := _; w_clock := _; w_slept := _ |}
    with (ticked (printed w1 [Msg_total_repos org (length repos)])).
  by rewrite Hloop.
Qed.

(** C8.  When the branches of a repository cannot be fetched, the loop
    logs the error, makes its periodic pause and goes on with the
    repositories that follow, from the mapping as it was; the loop over the
    repositories always ends normally; and once the repositories are listed
    and the cutoff is computed, the organization reaches the part that
    fetches the members and writes the report. *)
Theorem branch_fetch_failure_skips_only_the_repository
    (org since_iso : string) (total : nat) (repo : string) (repos : list string)
    (overall_activity : dict string) (repo_counter : nat)
    (script : list response) (w : world)
    (e : exn) (script' : list response) (w' : world) :
  get_all_branches repo org script
    (printed w [Msg_repo (S repo_counter) total repo]) = (Raise e, (script', w')) ->
  for_each (repo :: repos) (process_repo org since_iso total)
           (overall_activity, repo_counter) script w
  = (print (Msg_repo_error repo e) ;; pause_check (S repo_counter) ;;
     for_each repos (process_repo org since_iso total)
              (overall_activity, S repo_counter)) script' w'
  /\ (exists st script'' w'',
        for_each (repo :: repos) (process_repo org since_iso total)
                 (overall_activity, repo_counter) script w
        = (Return st, (script'', w'')))
  /\ (forall DAYS_INACTIVE_THRESHOLD clock script0 w0 all_repos script1 w1 since_date,
        get_repositories_for_org org script0 (printed w0 [Msg_fetching_repos org])
        = (Return all_repos, (script1, w1)) ->
        minus_days (clock (w_clock w1)) DAYS_INACTIVE_THRESHOLD = Return since_date ->
        exists st script2 w2,
          for_each all_repos
                   (process_repo org (isoformat since_date) (length all_repos))
                   (Dict.empty, 0%nat) script1
                   (ticked (printed w1 [Msg_total_repos org (length all_repos)]))
          = (Return st, (script2, w2))
          /\ process_org DAYS_INACTIVE_THRESHOLD clock org tt script0 w0
             = report_phase clock org since_date (fst st) script2 w2).
Proof.
  intros Hfail. split_and!.
  - cbn [for_each]. unfold bind at 1.
    rewrite (process_repo_branches_fail _ _ _ _ _ _ _ _ _ _ _ Hfail).
    unfold bind, print, modify, pause_check, sleep, ret.
    by destruct (_ =? _)%nat.
  - apply repositories_loop_returns.
  - intros. by eapply process_org_reaches_report.
Qed.

Lemma branch_fetch_failure_skips_only_the_repository_witness :
  get_all_branches "bad" "acme"
    [Errors "timeout"; refs_data (final (["main"], None));
     history_data (final ([ {| author := {| user := Some "alice";
                                            date := "2024-01-10T00:00:00Z" |} |} ], None));
     issues_data (final ([], None)); prs_data (final ([], None))]
    (printed initial_world [Msg_repo 1 2 "bad"])
  = (Raise GraphQLError,
     ([refs_data (final (["main"], None));
       history_data (final ([ {| author := {| user := Some "alice";
                                              date := "2024-01-10T00:00:00Z" |} |} ], None));
       issues_data (final ([], None)); prs_data (final ([], None))],
      with_calls (printed initial_world [Msg_repo 1 2 "bad"; Msg_graphql_errors "timeout"])
        [ {| req_query := Q_refs; req_variables := refs_vars "acme" "bad" None |} ]))
  /\ fst (for_each ["bad"; "good"] (process_repo "acme" "2024-01-01T00:00:00+00:00" 2)
            (Dict.empty, 0%nat)
            [Errors "timeout"; refs_data (final (["main"], None));
             history_data (final ([ {| author := {| user := Some "alice";
                                            date := "2024-01-10T00:00:00Z" |} |} ], None));
             issues_data (final ([], None)); prs_data (final ([], None))]
            initial_world)
     = Return ([("alice", "2024-01-10T00:00:00Z")], 2%nat).
Proof.
  assert (get_all_branches "bad" "acme"
    [Errors "timeout"; refs_data (final (["main"], None));
     history_data (final ([ {| author := {| user := Some "alice";
                                            date := "2024-01-10T00:00:00Z" |} |} ], None));
     issues_data (final ([], None)); prs_data (final ([], None))]
    (printed initial_world [Msg_repo 1 2 "bad"])
  = (Raise GraphQLError,
     ([refs_data (final (["main"], None));
       history_data (final ([ {| author := {| user := Some "alice";
                                              date := "2024-01-10T00:00:00Z" |} |} ], None));
       issues_data (final ([], None)); prs_data (final ([], None))],
      with_calls (printed initial_world [Msg_repo 1 2 "bad"; Msg_graphql_errors "timeout"])
        [ {| req_query := Q_refs; req_variables := refs_vars "acme" "bad" None |} ])))
    as Hfail by reflexivity.
  split; [exact Hfail|].
  destruct (branch_fetch_failure_skips_only_the_repository
              "acme" "2024-01-01T00:00:00+00:00" 2 "bad" ["good"] Dict.empty 0
              _ _ _ _ _ Hfail) as (Hloop & _ & _).
  rewrite Hloop. reflexivity.
Defined.

(** C4.  An error of the members query is not caught: it leaves [main],
    no report is written for the organization and the organizations after
    it are not visited. *)
Theorem members_failure_escapes_main :
  run (main ["acme"; "beta"] 60 (fun _ => mk_datetime 2024 3 1 12 0 0 0))
      [repositories_data (final ([], None)); Errors "rate limited";
       repositories_data (final ([], None)); members_data (final ([], None))]
  = (Raise GraphQLError,
     ([repositories_data (final ([], None)); members_data (final ([], None))],
      {| w_calls :=
           [ {| req_query := Q_repositories;
                req_variables := repositories_vars "acme" None |};
             {| req_query := Q_members; req_variables := members_vars "acme" None |} ];
         w_out := [Msg_fetching_repos "acme"; Msg_total_repos "acme" 0;
                   Msg_fetching_members; Msg_graphql_errors "rate limited"];
         w_files := [];
         w_clock := 1;
         w_slept := 0 |})).
Proof. reflexivity. Qed.

(** ** Runs of the whole program *)

(** The calendar: the ordinal of 1970-01-01, leap days, the last day. *)
Example calendar_checks :
  ymd2ord 1970 1 1 = 719163%Z
  /\ ord2ymd 719163 = (1970, 1, 1)%Z
  /\ ord2ymd (ymd2ord 2024 2 29) = (2024, 2, 29)%Z
  /\ ord2ymd (ymd2ord 2000 12 31) = (2000, 12, 31)%Z
  /\ ord2ymd (ymd2ord 1900 3 1 - 1) = (1900, 2, 28)%Z
  /\ ord2ymd MAXORDINAL = (9999, 12, 31)%Z
  /\ minus_days (mk_datetime 2024 3 1 12 0 0 0) 60
     = Return (mk_datetime 2024 1 1 12 0 0 0).
Proof. vm_compute. repeat split. Qed.

(** [strptime] takes fields of one digit and a lower-case [t], and refuses
    a day the month does not have, a second of 60 and trailing text. *)
Example strptime_checks :
  strptime "2024-1-5t3:4:5" = Return (mk_datetime 2024 1 5 3 4 5 0)
  /\ strptime "2024-02-29T23:59:59" = Return (mk_datetime 2024 2 29 23 59 59 0)
  /\ strptime "2023-02-29T23:59:59" = Raise (ValueError "out of range")
  /\ strptime "2024-02-29T23:59:60" = Raise (ValueError "out of range")
  /\ strptime "2024-02-29T23:59:5Z" = Raise (ValueError "unconverted data remains")
  /\ strptime "2024-02-29" = Raise (ValueError "time data does not match format").
Proof. vm_compute. repeat split. Qed.

(** One organization with one repository and one branch: a commit of
    [alice], an issue of [bob], no pull request; the members are [alice],
    [bob] and [carol]. *)
Example scenario_acme :
  run (main ["acme"] 60 (fun _ => mk_datetime 2024 3 1 12 0 0 0))
      [repositories_data (final (["x"], None));
       refs_data (final (["main"], None));
       history_data (final ([ {| author := {| user := Some "alice";
                                              date := "2024-01-10T00:00:00Z" |} |} ], None));
       issues_data (final ([ {| issue_author := Some "bob";
                                updatedAt := "2024-02-01T00:00:00Z" |} ], None));
       prs_data (final ([], None));
       members_data (final (["alice"; "bob"; "carol"], None))]
  = (Return tt,
     ([],
      {| w_calls :=
           [ {| req_query := Q_repositories;
                req_variables := repositories_vars "acme" None |};
             {| req_query := Q_refs; req_variables := refs_vars "acme" "x" None |};
             {| req_query := Q_commits;
                req_variables :=
                  commits_vars "acme" "x" "main" "2024-01-01T12:00:00+00:00" None |};
             {| req_query := Q_issues; req_variables := issues_vars "acme" "x" None |};
             {| req_query := Q_prs; req_variables := prs_vars "acme" "x" None |};
             {| req_query := Q_members; req_variables := members_vars "acme" None |} ];
         w_out := [Msg_fetching_repos "acme"; Msg_total_repos "acme" 1;
                   Msg_repo 1 1 "x"; Msg_branch "main"; Msg_fetching_members;
                   Msg_writing_csv "user_activity_report_acme_20240301_120000.csv";
                   Msg_done "acme"];
         w_files :=
           [("user_activity_report_acme_20240301_120000.csv",
             [["Users"; "Last activity"; "active"];
              ["alice"; "10-01-2024"; "true"];
              ["bob"; "01-02-2024"; "true"];
              ["carol"; "N/A"; "never-active"]])];
         w_clock := 2;
         w_slept := 0 |})).
Proof. vm_compute. reflexivity. Qed.

(** The branches of the first repository cannot be fetched, a branch of the
    second fails in its issues: the report is written all the same, from
    what the branch that answered gave. *)
Example scenario_with_failures :
  fst (snd (run (main ["acme"] 60 (fun _ => mk_datetime 2024 3 1 12 0 0 0))
      [repositories_data (final (["bad"; "good"], None));
       BadStatus 502;
       refs_data (final (["main"; "dev"], None));
       history_data (final ([], None)); Errors "timeout";
       history_data (final ([ {| author := {| user := Some "alice";
                                              date := "2023-11-10T09:30:00Z" |} |} ], None));
       issues_data (final ([], None)); prs_data (final ([], None));
       members_data (final (["bob"; "alice"], None))])) = []
  /\ w_files (snd (snd (run (main ["acme"] 60 (fun _ => mk_datetime 2024 3 1 12 0 0 0))
      [repositories_data (final (["bad"; "good"], None));
       BadStatus 502;
       refs_data (final (["main"; "dev"], None));
       history_data (final ([], None)); Errors "timeout";
       history_data (final ([ {| author := {| user := Some "alice";
                                              date := "2023-11-10T09:30:00Z" |} |} ], None));
       issues_data (final ([], None)); prs_data (final ([], None));
       members_data (final (["bob"; "alice"], None))])))
     = [("user_activity_report_acme_20240301_120000.csv",
         [["Users"; "Last activity"; "active"];
          ["alice"; "10-11-2023"; "false"];
          ["bob"; "N/A"; "never-active"]])].
Proof. vm_compute. split; reflexivity. Qed.

(** * Further properties of the code *)

(** ** The activity mapping loses no login (lines 116-117 and 197-199) *)

Lemma grows_refl (d : dict string) : grows d d.
Proof. intros login t H. exists t. split; [done | apply leb_refl]. Qed.

Lemma grows_trans (d1 d2 d3 : dict string) : grows d1 d2 -> grows d2 d3 -> grows d1 d3.
Proof.
  intros H12 H23 login t H1.
  destruct (H12 _ _ H1) as (t2 & H2 & Hle2).
  destruct (H23 _ _ H2) as (t3 & H3 & Hle3).
  exists t3. split; [done | by eapply leb_trans].
Qed.

Lemma opt_max_ge_l (t : string) (y : option string) :
  exists t', opt_max (Some t) y = Some t' /\ String.leb t t' = true.
Proof.
  destruct y as [b|]; simpl.
  - eexists; split; [done | apply str_max_spec].
  - eexists; split; [done | apply leb_refl].
Qed.

Lemma record_events_grows (events : list (string * string)) (d : dict string) :
  grows d (record_events d events).
Proof.
  intros login t H. rewrite record_events_get, H. apply opt_max_ge_l.
Qed.

Lemma keep_latest_keys (d : dict string) (k v : string) :
  Dict.keys (keep_latest d k v)
  = Dict.keys d ++ (if Dict.mem d k then [] else [k]).
Proof.
  unfold keep_latest. destruct (Dict.mem d k) eqn:E; simpl.
  - destruct (match Dict.get d k with Some old => _ | None => _ end).
    + by rewrite dict_keys_set, E, app_nil_r.
    + by rewrite app_nil_r.
  - by rewrite dict_keys_set, E.
Qed.

Lemma dict_mem_keys {V} (d : dict V) (k : string) :
  Dict.mem d k = true <-> k ∈ Dict.keys d.
Proof.
  unfold Dict.mem. destruct (Dict.get d k) eqn:E.
  - split; [intros _|done].
    destruct (decide (k ∈ Dict.keys d)) as [|Hn]; [done|].
    apply dict_get_None in Hn. congruence.
  - apply dict_get_None in E. split; [done | by intros ?].
Qed.

Lemma record_events_keys (events : list (string * string)) (d : dict string) :
  exists new,
    Dict.keys (record_events d events) = Dict.keys d ++ new
    /\ forall k, k ∈ new <-> k ∈ Dict.keys events /\ k ∉ Dict.keys d.
Proof.
  revert d. induction events as [|[k v] events IH]; intros d.
  - exists []. split; [by rewrite app_nil_r|].
    intros k. split; [by intros ?%elem_of_nil | by intros [?%elem_of_nil _]].
  - rewrite record_events_cons.
    destruct (IH (keep_latest d k v)) as (new & Hkeys & Hnew).
    rewrite keep_latest_keys in Hkeys, Hnew.
    exists ((if Dict.mem d k then [] else [k]) ++ new).
    split; [by rewrite Hkeys, app_assoc|].
    intros x. rewrite elem_of_app, Hnew. unfold Dict.keys at 2; simpl.
    rewrite elem_of_cons, elem_of_app.
    destruct (Dict.mem d k) eqn:E.
    + apply dict_mem_keys in E. rewrite elem_of_nil.
      split.
      * intros [[]|[Hx Hn]]. split; [by right | tauto].
      * intros [[->|Hx] Hn]; [done|]. right. split; [done|]. tauto.
    + assert (k ∉ Dict.keys d) as Hk.
      { intros Hin%dict_mem_keys. congruence. }
      rewrite list_elem_of_singleton.
      split.
      * intros [->|[Hx Hn]]; [by split; [left|]|]. split; [by right | tauto].
      * intros [[->|Hx] Hn]; [by left|].
        destruct (decide (x = k)) as [->|Hne]; [by left|].
        right. split; [done|]. intros [?|?]; done.
Qed.

(** X1.  Merging never loses a login: a login of the mapping merged into
    keeps its place in the order of the keys and a timestamp that is not
    smaller in the order of strings, which is the order the program
    compares timestamps in (between timestamps that end differently the
    greater string can be the earlier moment); and the keys of the result
    are exactly the keys of the two mappings, the new ones after the old. *)
Theorem merge_activity_never_loses (into from : dict string) :
  grows into (merge_activity into from)
  /\ (exists new,
        Dict.keys (merge_activity into from) = Dict.keys into ++ new
        /\ forall k, k ∈ new <-> k ∈ Dict.keys from /\ k ∉ Dict.keys into)
  /\ (forall login,
        Dict.mem (merge_activity into from) login
        = Dict.mem into login || Dict.mem from login).
Proof.
  rewrite merge_activity_events. split_and!.
  - apply record_events_grows.
  - apply record_events_keys.
  - intros login. destruct (record_events_keys from into) as (new & Hkeys & Hnew).
    apply eq_true_iff_eq. rewrite orb_true_iff, !dict_mem_keys, Hkeys, elem_of_app, Hnew.
    destruct (decide (login ∈ Dict.keys into)); tauto.
Qed.

(** ** The order of the events does not matter (lines 112-117, 133-137) *)

Lemma latest_in_Permutation (e1 e2 : list (string * string)) (login : string) :
  e1 ≡ₚ e2 -> latest_in e1 login = latest_in e2 login.
Proof.
  induction 1 as [|x l l' _ IH|x y l|l l' l'' _ IH1 _ IH2].
  - done.
  - by rewrite !latest_in_cons, IH.
  - rewrite !latest_in_cons, <- !opt_max_assoc.
    by rewrite (opt_max_comm (contribution login y)).
  - by rewrite IH1.
Qed.

(** X2.  The timestamp a login ends with does not depend on the order in
    which the events arrive: two runs over the same events, in any order,
    leave every login with the same timestamp. *)
Theorem record_events_order_irrelevant (d : dict string)
    (e1 e2 : list (string * string)) :
  e1 ≡ₚ e2 ->
  forall login,
    Dict.get (record_events d e1) login = Dict.get (record_events d e2) login.
Proof.
  intros Hperm login. rewrite !record_events_get.
  by rewrite (latest_in_Permutation e1 e2).
Qed.

Lemma record_events_order_irrelevant_witness :
  Dict.get (record_events [("bob", "2024-01-01T00:00:00Z")]
              [("alice", "2024-01-10T00:00:00Z"); ("bob", "2024-02-01T00:00:00Z");
               ("alice", "2024-03-01T00:00:00Z")]) "alice"
  = Dict.get (record_events [("bob", "2024-01-01T00:00:00Z")]
                [("alice", "2024-03-01T00:00:00Z"); ("alice", "2024-01-10T00:00:00Z");
                 ("bob", "2024-02-01T00:00:00Z")]) "alice".
Proof.
  apply record_events_order_irrelevant.
  symmetry. apply (Permutation_cons_app [_; _] []). reflexivity.
Defined.

(** ** A page that fails (lines 19-27 under lines 42-48, 63-67, 82-87) *)

Lemma printed_nil (w : world) : printed w [] = w.
Proof. destruct w. unfold printed; simpl. by rewrite app_nil_r. Qed.

Lemma printed_app (w : world) (a b : list msg) :
  printed (printed w a) b = printed w (a ++ b).
Proof. unfold printed; simpl. by rewrite app_assoc. Qed.

Lemma respond_failure (r : response) (w : world) e ms :
  failure r = Some (e, ms) -> respond r w = (Raise e, printed w ms).
Proof.
  destruct r; simpl; intros [= <- <-]; by rewrite ?printed_nil.
Qed.

Section failing_pages.
Context {A N : Type}.
Variable q : query.
Variable variables : option string -> dict (option string).
Variable body : data -> A -> pass A.
Variable wrap : page N -> response.
Variable step : A -> page N -> A.
Hypothesis wrap_data : forall p, exists d, wrap p = Data d /\
  forall acc, body d acc = next_page (step acc p) p.

Lemma while_has_next_fails pre bad rest cursor acc w e ms :
  failure bad = Some (e, ms) ->
  while_has_next q variables body cursor acc (map wrap (map more pre) ++ bad :: rest) w
  = (Raise e,
     (rest, printed (with_calls w (requests q variables (cursor :: map snd pre))) ms)).
Proof.
  intros Hbad. revert cursor acc w.
  induction pre as [|np pre IH]; intros cursor acc w; simpl.
  - by rewrite (respond_failure _ _ _ _ Hbad).
  - destruct (wrap_data (more np)) as (d & -> & Hbody). simpl.
    rewrite Hbody. simpl. by rewrite IH, record_call_with_calls, with_calls_app.
Qed.

Lemma while_has_next_exhausted pre cursor acc w :
  while_has_next q variables body cursor acc (map wrap (map more pre)) w
  = (Raise RequestException,
     ([], with_calls w (requests q variables (cursor :: map snd pre)))).
Proof.
  revert cursor acc w.
  induction pre as [|np pre IH]; intros cursor acc w; simpl.
  - done.
  - destruct (wrap_data (more np)) as (d & -> & Hbody). simpl.
    rewrite Hbody. simpl. by rewrite IH, record_call_with_calls, with_calls_app.
Qed.

End failing_pages.

(** X3.  When a page of members, repositories or branches fails after
    pages that each announced a successor, the traversal raises the failure
    of that page and returns none of the nodes read so far; it has sent one
    request per page read and one for the page that failed, and reads
    nothing after it.  The same holds when the endpoint stops answering. *)
Theorem traversal_fails_with_its_page (org repo : string)
    (pre : list (list string * option string)) (bad : response)
    (rest : list response) (w : world) (e : exn) (ms : list msg) :
  failure bad = Some (e, ms) ->
  get_all_org_members_for_org org (map members_data (map more pre) ++ bad :: rest) w
  = (Raise e,
     (rest, printed (with_calls w (requests Q_members (members_vars org)
                                           (cursors_sent pre))) ms))
  /\ get_repositories_for_org org (map repositories_data (map more pre) ++ bad :: rest) w
     = (Raise e,
        (rest, printed (with_calls w (requests Q_repositories (repositories_vars org)
                                              (cursors_sent pre))) ms))
  /\ get_all_branches repo org (map refs_data (map more pre) ++ bad :: rest) w
     = (Raise e,
        (rest, printed (with_calls w (requests Q_refs (refs_vars org repo)
                                              (cursors_sent pre))) ms))
  /\ get_all_branches repo org (map refs_data (map more pre)) w
     = (Raise RequestException,
        ([], with_calls w (requests Q_refs (refs_vars org repo) (cursors_sent pre)))).
Proof.
  intros Hbad. split_and!.
  - unfold get_all_org_members_for_org.
    apply (while_has_next_fails _ _ _ members_data (fun acc p => acc ++ nodes p));
      [intros p; by eexists | done].
  - unfold get_repositories_for_org.
    apply (while_has_next_fails _ _ _ repositories_data (fun acc p => acc ++ nodes p));
      [intros p; by eexists | done].
  - unfold get_all_branches.
    apply (while_has_next_fails _ _ _ refs_data (fun acc p => acc ++ nodes p));
      [intros p; by eexists | done].
  - unfold get_all_branches.
    apply (while_has_next_exhausted _ _ _ refs_data (fun acc p => acc ++ nodes p)).
    intros p; by eexists.
Qed.

(** Two pages of branches, then a refused status. *)
Lemma traversal_fails_with_its_page_witness :
  get_all_branches "x" "acme"
    [refs_data (more (["main"], Some "c1")); refs_data (more (["dev"], Some "c2"));
     BadStatus 502; refs_data (final (["late"], None))]
    initial_world
  = (Raise (HTTPError 502),
     ([refs_data (final (["late"], None))],
      with_calls initial_world
        [ {| req_query := Q_refs; req_variables := refs_vars "acme" "x" None |};
          {| req_query := Q_refs; req_variables := refs_vars "acme" "x" (Some "c1") |};
          {| req_query := Q_refs; req_variables := refs_vars "acme" "x" (Some "c2") |} ])).
Proof.
  exact (proj1 (proj2 (proj2
    (traversal_fails_with_its_page "acme" "x"
       [(["main"], Some "c1"); (["dev"], Some "c2")] (BadStatus 502)
       [refs_data (final (["late"], None))] initial_world (HTTPError 502) []
       eq_refl)))).
Defined.

(** ** A branch that fails part-way (lines 193-201) *)

Lemma issues_loop_fails org repo pre bad rest activity w e ms :
  failure bad = Some (e, ms) ->
  issues_loop org repo activity (map issues_data (map more pre) ++ bad :: rest) w
  = (Raise e,
     (rest, printed (with_calls w (requests Q_issues (issues_vars org repo)
                                           (cursors_sent pre))) ms)).
Proof.
  intros Hbad. unfold issues_loop.
  apply (while_has_next_fails _ _ _ issues_data
           (fun acc p => record_issue_nodes acc (nodes p)));
    [intros p; by eexists | done].
Qed.

(** X4.  A branch whose commit history is read in full and whose issue
    query then fails contributes nothing: [process_branch] hands back the
    organization's mapping exactly as it received it, logs that the branch
    is skipped, raises nothing, and does not send the pull-request query. *)
Theorem failed_branch_contributes_nothing (org repo since_iso br : string)
    (overall_activity : dict string)
    (cpre : list (list commit_node * option string)) (clast : list commit_node * option string)
    (ipre : list (list issue_node * option string))
    (bad : response) (rest : list response) (w : world) (e : exn) (ms : list msg) :
  failure bad = Some (e, ms) ->
  process_branch org repo since_iso br overall_activity
    (map history_data (paged cpre clast) ++ map issues_data (map more ipre)
     ++ bad :: rest) w
  = (Return overall_activity,
     (rest,
      printed
        (with_calls (printed w [Msg_branch br])
           (requests Q_commits (commits_vars org repo br since_iso) (cursors_sent cpre)
            ++ requests Q_issues (issues_vars org repo) (cursors_sent ipre)))
        (ms ++ [Msg_skipping_branch br e]))).
Proof.
  intros Hbad. unfold process_branch, bind at 1. rewrite print_printed.
  unfold try_except, bind at 1, collect_branch_activity, bind at 1.
  rewrite commits_paged. unfold bind at 1.
  rewrite (issues_loop_fails _ _ _ _ _ _ _ _ _ Hbad).
  unfold bind. rewrite print_printed. unfold ret.
  by rewrite with_calls_app, printed_app.
Qed.

(** A commit of [alice] is read, then the issue query times out. *)
Lemma failed_branch_contributes_nothing_witness :
  fst (process_branch "acme" "x" "2024-01-01T00:00:00+00:00" "main"
         [("bob", "2024-01-02T00:00:00Z")]
         [history_data (final ([ {| author := {| user := Some "alice";
                                                 date := "2024-01-10T00:00:00Z" |} |} ],
                                None));
          Errors "timeout"; prs_data (final ([], None))]
         initial_world)
  = Return [("bob", "2024-01-02T00:00:00Z")].
Proof.
  exact (f_equal fst
    (failed_branch_contributes_nothing "acme" "x" "2024-01-01T00:00:00+00:00" "main"
       [("bob", "2024-01-02T00:00:00Z")] []
       ([ {| author := {| user := Some "alice";
                          date := "2024-01-10T00:00:00Z" |} |} ], None)
       [] (Errors "timeout") [prs_data (final ([], None))] initial_world
       GraphQLError [Msg_graphql_errors "timeout"] eq_refl)).
Defined.

(** ** The pause (lines 185-207) *)

(** X5.  A repository whose branch listing comes back empty is left at
    once: no query about a branch is sent, the mapping is unchanged, the
    counter advances, and there is no pause even when the repository is the
    hundredth, because [continue] passes over the pause. *)
Theorem empty_repository_skips_the_pause (org since_iso : string) (total : nat)
    (repo : string) (overall_activity : dict string) (repo_counter : nat)
    (pre : list (list string * option string)) (last : list string * option string)
    (rest : list response) (w : world) :
  all_nodes (paged pre last) = [] ->
  process_repo org since_iso total repo (overall_activity, repo_counter)
    (map refs_data (paged pre last) ++ rest) w
  = (Return (overall_activity, S repo_counter),
     (rest,
      printed
        (with_calls (printed w [Msg_repo (S repo_counter) total repo])
           (requests Q_refs (refs_vars org repo) (cursors_sent pre)))
        [Msg_no_branches]))
  /\ w_slept
       (printed
          (with_calls (printed w [Msg_repo (S repo_counter) total repo])
             (requests Q_refs (refs_vars org repo) (cursors_sent pre)))
          [Msg_no_branches])
     = w_slept w.
Proof.
  intros Hempty. split; [|done].
  unfold process_repo, bind at 1. rewrite print_printed.
  unfold bind at 1, try_except, bind at 1. rewrite branches_paged, Hempty.
  unfold bind at 1. rewrite print_printed. unfold ret at 1. done.
Qed.

(** The hundredth repository, with no branch. *)
Lemma empty_repository_skips_the_pause_witness :
  process_repo "acme" "2024-01-01T00:00:00+00:00" 100 "empty" ([], 99%nat)
    [refs_data (final ([], None)); refs_data (final (["main"], None))] initial_world
  = (Return ([], 100%nat),
     ([refs_data (final (["main"], None))],
      printed
        (with_calls (printed initial_world [Msg_repo 100 100 "empty"])
           [ {| req_query := Q_refs; req_variables := refs_vars "acme" "empty" None |} ])
        [Msg_no_branches])).
Proof.
  exact (proj1 (empty_repository_skips_the_pause
                  "acme" "2024-01-01T00:00:00+00:00" 100 "empty" [] 99 [] ([], None)
                  [refs_data (final (["main"], None))] initial_world eq_refl)).
Defined.

Lemma process_repo_unreachable org since_iso total repo overall_activity repo_counter w :
  exists w',
    process_repo org since_iso total repo (overall_activity, repo_counter) [] w
    = (Return (overall_activity, S repo_counter), ([], w'))
    /\ w_slept w'
       = (w_slept w + if (S repo_counter mod 100 =? 0)%nat then 2 else 0)%Z
    /\ w_files w' = w_files w
    /\ w_clock w' = w_clock w
    /\ w_calls w'
       = w_calls w ++ [ {| req_query := Q_refs; req_variables := refs_vars org repo None |} ].
Proof.
  assert (get_all_branches repo org []
            (printed w [Msg_repo (S repo_counter) total repo])
          = (Raise RequestException,
             ([], with_calls (printed w [Msg_repo (S repo_counter) total repo])
                    [ {| req_query := Q_refs;
                         req_variables := refs_vars org repo None |} ]))) as Hfail by done.
  rewrite (process_repo_branches_fail _ _ _ _ _ _ _ _ _ _ _ Hfail).
  unfold bind, print, modify, pause_check, sleep, ret.
  destruct (_ =? _)%nat; eexists; (split; [reflexivity|]); simpl;
    split_and!; try done; lia.
Qed.

Lemma hundreds_step (c : nat) :
  ((S c) / 100 = c / 100 + if (S c mod 100 =? 0) then 1 else 0)%nat.
Proof.
  pose proof (Nat.div_mod_eq c 100) as Hc.
  pose proof (Nat.div_mod_eq (S c) 100) as Hs.
  pose proof (Nat.mod_upper_bound c 100 ltac:(done)) as Bc.
  pose proof (Nat.mod_upper_bound (S c) 100 ltac:(done)) as Bs.
  destruct (Nat.eqb_spec (S c mod 100) 0); lia.
Qed.

(** X6.  With the endpoint unreachable the loop over the repositories
    still visits every repository and raises nothing: it asks once for the
    branches of each, leaves the mapping as it was, writes no file, and
    pauses two seconds for every hundredth repository it passes. *)
Theorem unreachable_endpoint_repositories (org since_iso : string) (total : nat)
    (repos : list string) (overall_activity : dict string) (repo_counter : nat)
    (w : world) :
  exists w',
    for_each repos (process_repo org since_iso total)
             (overall_activity, repo_counter) [] w
    = (Return (overall_activity, (repo_counter + length repos)%nat), ([], w'))
    /\ w_slept w'
       = (w_slept w
          + 2 * Z.of_nat ((repo_counter + length repos) / 100 - repo_counter / 100))%Z
    /\ w_files w' = w_files w
    /\ w_clock w' = w_clock w
    /\ w_calls w'
       = w_calls w
         ++ map (fun repo => {| req_query := Q_refs;
                                req_variables := refs_vars org repo None |}) repos.
Proof.
  revert repo_counter w. induction repos as [|repo repos IH]; intros c w.
  - exists w. cbn [for_each length map]. unfold ret.
    rewrite Nat.add_0_r, Nat.sub_diag, app_nil_r. split_and!; try done. lia.
  - destruct (process_repo_unreachable org since_iso total repo overall_activity c w)
      as (w1 & Hrun & Hslept & Hfiles & Hclock & Hcalls).
    destruct (IH (S c) w1) as (w' & Hrun' & Hslept' & Hfiles' & Hclock' & Hcalls').
    exists w'. cbn [for_each length map]. unfold bind. rewrite Hrun, Hrun'.
    replace (c + S (length repos))%nat with (S c + length repos)%nat by lia.
    split_and!; [done| |congruence|congruence|].
    + rewrite Hslept', Hslept.
      pose proof (hundreds_step c) as Hstep.
      pose proof (Nat.Div0.div_le_mono (S c) (S c + length repos) 100 ltac:(lia)).
      destruct (S c mod 100 =? 0)%nat; lia.
    + rewrite Hcalls', Hcalls. by rewrite <- app_assoc.
Qed.

(** ** An organization that cannot be listed (lines 169-175) *)

Lemma process_org_repositories_fail DAYS_INACTIVE_THRESHOLD clock org script w
    e script' w' :
  get_repositories_for_org org script (printed w [Msg_fetching_repos org])
  = (Raise e, (script', w')) ->
  process_org DAYS_INACTIVE_THRESHOLD clock org tt script w
  = (Return tt, (script', printed w' [Msg_skipping_org org e])).
Proof.
  intros Hfail. unfold process_org, bind at 1. rewrite print_printed.
  unfold bind at 1, try_except, bind at 1. rewrite Hfail.
  unfold bind at 1. rewrite print_printed. done.
Qed.

(** X7.  When the repositories of an organization cannot be listed, the
    organization is skipped with a logged line: the clock is not read, no
    member is fetched, no file is written, and [main] goes on with the
    organizations that follow. *)
Theorem unlisted_organization_is_skipped (DAYS_INACTIVE_THRESHOLD : Z)
    (clock : nat -> datetime) (org : string) (orgs : list string)
    (script : list response) (w : world)
    (e : exn) (script' : list response) (w' : world) :
  get_repositories_for_org org script (printed w [Msg_fetching_repos org])
  = (Raise e, (script', w')) ->
  main (org :: orgs) DAYS_INACTIVE_THRESHOLD clock script w
  = for_each orgs (process_org DAYS_INACTIVE_THRESHOLD clock) tt script'
             (printed w' [Msg_skipping_org org e])
  /\ w_files (printed w' [Msg_skipping_org org e]) = w_files w'
  /\ w_clock (printed w' [Msg_skipping_org org e]) = w_clock w'.
Proof.
  intros Hfail. split; [|done].
  cbn [main for_each]. unfold bind.
  by rewrite (process_org_repositories_fail _ _ _ _ _ _ _ _ Hfail).
Qed.

(** The first organization is refused, the second has no repository and
    one member. *)
Lemma unlisted_organization_is_skipped_witness :
  w_files (snd (snd (run (main ["ghost"; "acme"] 60 (fun _ => mk_datetime 2024 3 1 12 0 0 0))
                      [BadStatus 404; repositories_data (final ([], None));
                       members_data (final (["ann"], None))])))
  = [("user_activity_report_acme_20240301_120000.csv",
      [["Users"; "Last activity"; "active"]; ["ann"; "N/A"; "never-active"]])].
Proof.
  unfold run.
  rewrite (proj1 (unlisted_organization_is_skipped 60
             (fun _ => mk_datetime 2024 3 1 12 0 0 0) "ghost" ["acme"]
             [BadStatus 404; repositories_data (final ([], None));
              members_data (final (["ann"], None))] initial_world
             (HTTPError 404)
             [repositories_data (final ([], None)); members_data (final (["ann"], None))]
             (with_calls (printed initial_world [Msg_fetching_repos "ghost"])
                [ {| req_query := Q_repositories;
                     req_variables := repositories_vars "ghost" None |} ])
             eq_refl)).
  vm_compute. reflexivity.
Defined.

Lemma process_org_unreachable DAYS_INACTIVE_THRESHOLD clock org w :
  process_org DAYS_INACTIVE_THRESHOLD clock org tt [] w
  = (Return tt,
     ([], printed
            (with_calls (printed w [Msg_fetching_repos org])
               [ {| req_query := Q_repositories;
                    req_variables := repositories_vars org None |} ])
            [Msg_skipping_org org RequestException])).
Proof. by apply process_org_repositories_fail. Qed.

(** X8.  With the endpoint unreachable [main] ends normally: for each
    organization, in order, it sends the one request for its repositories
    and prints that it fetches and then skips it; it writes no file and
    never reads the clock. *)
Theorem unreachable_endpoint_main (DAYS_INACTIVE_THRESHOLD : Z)
    (clock : nat -> datetime) (org : string) (orgs : list string) (w : world) :
  main (org :: orgs) DAYS_INACTIVE_THRESHOLD clock [] w
  = (Return tt,
     ([],
      {| w_calls :=
           w_calls w
           ++ map (fun o => {| req_query := Q_repositories;
                               req_variables := repositories_vars o None |})
                  (org :: orgs);
         w_out :=
           w_out w
           ++ flat_map (fun o => [Msg_fetching_repos o;
                                  Msg_skipping_org o RequestException])
                       (org :: orgs);
         w_files := w_files w;
         w_clock := w_clock w;
         w_slept := w_slept w |})).
Proof.
  unfold main. generalize (org :: orgs) as os. clear org orgs.
  intros os. revert w. induction os as [|o os IH]; intros w.
  - cbn [for_each map flat_map]. unfold ret. rewrite !app_nil_r. by destruct w.
  - cbn [for_each map flat_map]. unfold bind. rewrite process_org_unreachable, IH.
    unfold printed, with_calls; simpl. by rewrite <- !app_assoc.
Qed.

(** ** What the loop over the repositories keeps (lines 182-207) *)

Lemma quiet_ret {A} (a : A) : quiet (ret a).
Proof. intros script w o s' w' [= <- <- <-]. split_and!; try done. by exists []. Qed.

Lemma quiet_print (m : msg) : quiet (print m).
Proof. intros script w o s' w' [= <- <- <-]. split_and!; try done. by exists []. Qed.

Lemma quiet_sleep (seconds : Z) : quiet (sleep seconds).
Proof. intros script w o s' w' [= <- <- <-]. split_and!; try done. by exists []. Qed.

Lemma quiet_bind {A B} (m : M A) (k : A -> M B) :
  quiet m -> (forall a, quiet (k a)) -> quiet (bind m k).
Proof.
  intros Hm Hk script w o s' w'. unfold bind.
  destruct (m script w) as [[a|e] [s1 w1]] eqn:E.
  - intros H. destruct (Hm _ _ _ _ _ E) as (F1 & C1 & u1 & ->).
    destruct (Hk a _ _ _ _ _ H) as (F2 & C2 & u2 & ->).
    split_and!; [congruence | congruence |]. exists (u1 ++ u2). by rewrite app_assoc.
  - intros [= <- <- <-]. by apply (Hm _ _ _ _ _ E).
Qed.

Lemma quiet_try_except {A} (m : M A) (handler : exn -> M A) :
  quiet m -> (forall e, quiet (handler e)) -> quiet (try_except m handler).
Proof.
  intros Hm Hh script w o s' w'. unfold try_except.
  destruct (m script w) as [[a|e] [s1 w1]] eqn:E.
  - intros [= <- <- <-]. by apply (Hm _ _ _ _ _ E).
  - intros H. destruct (Hm _ _ _ _ _ E) as (F1 & C1 & u1 & ->).
    destruct (Hh e _ _ _ _ _ H) as (F2 & C2 & u2 & ->).
    split_and!; [congruence | congruence |]. exists (u1 ++ u2). by rewrite app_assoc.
Qed.

Lemma quiet_for_each {X S} (xs : list X) (body : X -> S -> M S) (s : S) :
  (forall x s', quiet (body x s')) -> quiet (for_each xs body s).
Proof.
  intros Hbody. revert s. induction xs as [|x xs IH]; intros s; simpl.
  - apply quiet_ret.
  - apply quiet_bind; [apply Hbody | apply IH].
Qed.

Lemma respond_quiet (r : response) (w : world) :
  w_files (respond r w).2 = w_files w /\ w_clock (respond r w).2 = w_clock w.
Proof. by destruct r. Qed.

Lemma quiet_while_has_next {A} q variables (body : data -> A -> pass A) cursor acc :
  quiet (while_has_next q variables body cursor acc).
Proof.
  intros script. revert cursor acc.
  induction script as [|r rest IH]; intros cursor acc w o s' w'; simpl.
  - intros [= <- <- <-]. split_and!; try done. by exists [].
  - pose proof (respond_quiet r
      (record_call {| req_query := q; req_variables := variables cursor |} w)) as [F C].
    destruct (respond r _) as [[d|e] w1]; simpl in F, C.
    + destruct (body d acc) as [acc' cursor' [|]| |].
      * intros H. destruct (IH _ _ _ _ _ _ H) as (F2 & C2 & u & ->).
        split_and!; [congruence | congruence |]. by exists (r :: u).
      * intros [= <- <- <-]. split_and!; try done. by exists [r].
      * intros [= <- <- <-]. split_and!; try done. by exists [r].
      * intros [= <- <- <-]. split_and!; try done. by exists [r].
    + intros [= <- <- <-]. split_and!; try done. by exists [r].
Qed.

Lemma quiet_collect_branch_activity org repo branch since_iso :
  quiet (collect_branch_activity org repo branch since_iso).
Proof.
  unfold collect_branch_activity.
  apply quiet_bind; [apply quiet_while_has_next|]. intros activity.
  apply quiet_bind; [apply quiet_while_has_next|]. intros activity'.
  apply quiet_while_has_next.
Qed.

Lemma quiet_process_branch org repo since_iso br overall_activity :
  quiet (process_branch org repo since_iso br overall_activity).
Proof.
  unfold process_branch.
  apply quiet_bind; [apply quiet_print|]. intros _.
  apply quiet_try_except.
  - apply quiet_bind; [apply quiet_collect_branch_activity|]. intros act.
    apply quiet_ret.
  - intros e. apply quiet_bind; [apply quiet_print|]. intros _. apply quiet_ret.
Qed.

Lemma quiet_process_repo org since_iso total repo st :
  quiet (process_repo org since_iso total repo st).
Proof.
  destruct st as [overall_activity repo_counter]. unfold process_repo.
  apply quiet_bind; [apply quiet_print|]. intros _.
  apply quiet_bind.
  - apply quiet_try_except.
    + apply quiet_bind; [apply quiet_while_has_next|]. intros [|b branches].
      * apply quiet_bind; [apply quiet_print|]. intros _. apply quiet_ret.
      * apply quiet_bind; [|intros; apply quiet_ret].
        apply quiet_for_each. intros. apply quiet_process_branch.
    + intros e. apply quiet_bind; [apply quiet_print|]. intros _. apply quiet_ret.
  - intros [overall_activity' [|]]; [apply quiet_ret|].
    apply quiet_bind; [|intros; apply quiet_ret].
    unfold pause_check. destruct (_ =? _)%nat; [|apply quiet_ret].
    apply quiet_bind; [apply quiet_print|]. intros _. apply quiet_sleep.
Qed.

Lemma keeps_refl (d : dict string) : keeps d d.
Proof. split; [apply grows_refl | done]. Qed.

Lemma keeps_trans (d1 d2 d3 : dict string) : keeps d1 d2 -> keeps d2 d3 -> keeps d1 d3.
Proof. intros [G1 W1] [G2 W2]. split; [by eapply grows_trans | auto]. Qed.

Lemma for_each_invariant {X S} (R : nat -> S -> S -> Prop) (body : X -> S -> M S) :
  (forall s, R 0%nat s s) ->
  (forall n s1 s2 s3, R 1%nat s1 s2 -> R n s2 s3 -> R (Datatypes.S n) s1 s3) ->
  (forall x s script w, exists s' script' w',
      body x s script w = (Return s', (script', w')) /\ R 1%nat s s') ->
  forall xs s script w, exists s' script' w',
    for_each xs body s script w = (Return s', (script', w')) /\ R (length xs) s s'.
Proof.
  intros Hrefl Hstep Hbody xs. induction xs as [|x xs IH]; intros s script w.
  - exists s, script, w. split; [done | apply Hrefl].
  - destruct (Hbody x s script w) as (s1 & sc1 & w1 & E1 & R1).
    destruct (IH s1 sc1 w1) as (s2 & sc2 & w2 & E2 & R2).
    exists s2, sc2, w2. cbn [for_each length]. unfold bind. rewrite E1, E2.
    split; [done | by eapply Hstep].
Qed.

Lemma process_branch_keeps org repo since_iso br overall_activity script w :
  exists overall_activity' script' w',
    process_branch org repo since_iso br overall_activity script w
    = (Return overall_activity', (script', w'))
    /\ keeps overall_activity overall_activity'.
Proof.
  unfold process_branch, bind at 1. rewrite print_printed.
  unfold try_except, bind at 1.
  destruct (collect_branch_activity _ _ _ _ _ _) as [[act|e] [s1 w1]].
  - eexists _, _, _. split; [reflexivity|]. rewrite merge_activity_events.
    split; [apply record_events_grows | apply record_events_wf].
  - unfold bind. rewrite print_printed. eexists _, _, _.
    split; [reflexivity | apply keeps_refl].
Qed.

Lemma process_repo_keeps org since_iso total repo overall_activity repo_counter script w :
  exists st' script' w',
    process_repo org since_iso total repo (overall_activity, repo_counter) script w
    = (Return st', (script', w'))
    /\ keeps overall_activity (fst st') /\ snd st' = S repo_counter.
Proof.
  unfold process_repo, bind at 1. rewrite print_printed.
  unfold bind at 1, try_except, bind at 1.
  destruct (get_all_branches _ _ _ _) as [[[|b branches]|e] [s1 w1]].
  - unfold bind at 1. rewrite print_printed. unfold ret at 1.
    eexists _, _, _. split; [reflexivity|]. split; [apply keeps_refl | done].
  - destruct (for_each_invariant (fun _ d d' => keeps d d')
                (process_branch org repo since_iso)
                keeps_refl (fun _ => keeps_trans)
                (process_branch_keeps org repo since_iso)
                (b :: branches) overall_activity s1 w1)
      as (d' & s2 & w2 & E & K).
    unfold bind at 1. rewrite E. unfold ret at 1.
    unfold bind, pause_check, print, modify, sleep, ret.
    destruct (_ =? _)%nat; eexists _, _, _; (split; [reflexivity|]); by split.
  - unfold bind at 1. rewrite print_printed. unfold ret at 1.
    unfold bind, pause_check, print, modify, sleep, ret.
    destruct (_ =? _)%nat; eexists _, _, _; (split; [reflexivity|]);
      (split; [apply keeps_refl | done]).
Qed.

(** X9.  No exception leaves the loop over the repositories.  On every
    finite sequence of answers, after the last of which a request fails as
    a connection error, the loop returns with the counter advanced by the
    number of repositories and a mapping in which every login it held is
    still there, with a timestamp that is not smaller in the order of
    strings the program compares, and which is still a dictionary.  The
    loop writes no file, does not read the clock, and takes its answers
    from the front of the sequence.  (An endpoint that announces one more
    page for ever is not such a sequence: on it the source does not end.) *)
Theorem repositories_loop_keeps_the_mapping (org since_iso : string) (total : nat)
    (repos : list string) (overall_activity : dict string) (repo_counter : nat)
    (script : list response) (w : world) :
  exists overall_activity' script' w',
    for_each repos (process_repo org since_iso total)
             (overall_activity, repo_counter) script w
    = (Return (overall_activity', (repo_counter + length repos)%nat), (script', w'))
    /\ grows overall_activity overall_activity'
    /\ (Dict.wf overall_activity -> Dict.wf overall_activity')
    /\ w_files w' = w_files w
    /\ w_clock w' = w_clock w
    /\ exists used, script = used ++ script'.
Proof.
  destruct (for_each_invariant
              (fun n (st st' : dict string * nat) =>
                 keeps (fst st) (fst st') /\ snd st' = (snd st + n)%nat)
              (process_repo org since_iso total))
    with (xs := repos) (s := (overall_activity, repo_counter))
         (script := script) (w := w)
    as ([d' c'] & s' & w' & E & [G W] & C).
  - intros s. split; [apply keeps_refl | lia].
  - intros n s1 s2 s3 [K1 C1] [K2 C2]. split; [by eapply keeps_trans | lia].
  - intros x [d c] sc w0.
    destruct (process_repo_keeps org since_iso total x d c sc w0)
      as (st' & sc' & w1 & E & K & C).
    exists st', sc', w1. split; [done|]. split; [done | simpl; lia].
  - simpl in G, W, C. subst c'. exists d', s', w'. split; [done|].
    split; [done|]. split; [done|].
    apply (quiet_for_each repos (process_repo org since_iso total)
             (overall_activity, repo_counter)
             (fun x st => quiet_process_repo org since_iso total x st) _ _ _ _ _ E).
Qed.

(** ** A timestamp the report cannot read (lines 217-224) *)

Lemma for_each_app {X S} (xs ys : list X) (body : X -> S -> M S) (s : S) script w :
  for_each (xs ++ ys) body s script w
  = bind (for_each xs body s) (for_each ys body) script w.
Proof.
  revert s script w. induction xs as [|x xs IH]; intros s script w; simpl.
  - done.
  - unfold bind. destruct (body x s script w) as [[s1|e] [sc1 w1]]; [|done].
    rewrite IH. done.
Qed.

(** X10.  When the first nineteen characters of an entry's timestamp are
    ASCII characters that cannot be parsed, the report stops there with the
    parser's exception, which nothing catches: the file keeps the header and
    the rows of the entries before it, and has no row for that entry, for
    the entries after it or for any never-active member.  (Outside ASCII
    Python's parser also reads the other decimal digits of Unicode, which
    [strptime] here does not.) *)
Theorem report_stops_at_unreadable_timestamp (filename : string)
    (since_date : datetime) (obs : list observed) (user last_iso : string)
    (later : list (string * string)) (never_active : gset string)
    (script : list response) (w : world) (e : exn) :
  Forall o_valid obs ->
  ascii_text (slice_to 19 last_iso) = true ->
  strptime (slice_to 19 last_iso) = Raise e ->
  write_report filename since_date
    (map o_entry obs ++ (user, last_iso) :: later) never_active script w
  = (Raise e,
     (script,
      with_file w filename
        (["Users"; "Last activity"; "active"] :: map (observed_row since_date) obs))).
Proof.
  intros Hall _ Hbad. unfold write_report, bind at 1. rewrite open_w_file.
  unfold bind at 1. rewrite writerow_file.
  unfold bind at 1, Dict.items. rewrite for_each_app.
  unfold bind at 1. rewrite activity_rows_observed by done.
  cbn [for_each]. unfold bind at 1, activity_row, bind at 1, lift.
  rewrite Hbad. done.
Qed.

(** The second entry carries a date without a time. *)
Lemma report_stops_at_unreadable_timestamp_witness :
  write_report "report.csv" (mk_datetime 2024 1 15 12 0 0 0)
    [("alice", "2024-01-10T00:00:00Z"); ("bob", "2024-02-01");
     ("carol", "2024-02-02T00:00:00Z")]
    (list_to_set ["dave"]) [] initial_world
  = (Raise (ValueError "time data does not match format"),
     ([], with_file initial_world "report.csv"
            [["Users"; "Last activity"; "active"];
             ["alice"; "10-01-2024"; "false"]])).
Proof.
  assert (Forall o_valid
            [ {| o_login := "alice"; o_year := 2024; o_month := 1; o_day := 10;
                 o_hour := 0; o_minute := 0; o_second := 0; o_suffix := "Z" |} ])
    as Hvalid.
  { repeat constructor; vm_compute; intros; discriminate. }
  exact (report_stops_at_unreadable_timestamp "report.csv"
           (mk_datetime 2024 1 15 12 0 0 0) _ "bob" "2024-02-01"
           [("carol", "2024-02-02T00:00:00Z")] (list_to_set ["dave"]) [] initial_world
           (ValueError "time data does not match format") Hvalid eq_refl eq_refl).
Defined.

(** ** The row of one entry (lines 220-222) *)



























(** ** One row for every login (lines 210-224) *)

Lemma observed_logins (since_date : datetime) (obs : list observed) :
  map (hd ""%string) (map (observed_row since_date) obs) = Dict.keys (map o_entry obs).
Proof. unfold Dict.keys. rewrite !map_map. by apply map_ext. Qed.

Lemma never_logins (users : list string) :
  map (hd ""%string) (map never_row users) = users.
Proof. rewrite map_map. simpl. apply map_id. Qed.

(** X12.  When the timestamps of the mapping are well formed and the
    mapping is a dictionary, the report written for the members of the
    organization has, after its header, exactly one row for every login that
    is a member or has been observed, and no other row: nobody is listed
    twice, no member is left out, and an observed login that is not a member
    of the organization is listed as well. *)
Theorem report_lists_every_login_once (filename : string) (since_date : datetime)
    (obs : list observed) (members : list string)
    (script : list response) (w : world) :
  Forall o_valid obs ->
  Dict.wf (map o_entry obs) ->
  exists rows,
    write_report filename since_date (map o_entry obs)
      (never_active_users members (map o_entry obs)) script w
    = (Return tt, (script, with_file w filename (header :: rows)))
    /\ NoDup (map (hd ""%string) rows)
    /\ (forall login,
          login ∈ map (hd ""%string) rows
          <-> login ∈ members \/ Dict.mem (map o_entry obs) login = true)
    /\ Forall (fun r : row => length r = 3%nat) rows.
Proof.
  intros Hvalid Hwf.
  exists (map (observed_row since_date) obs
          ++ map never_row (sorted (never_active_users members (map o_entry obs)))).
  split; [by apply write_report_observed|].
  rewrite map_app, observed_logins, never_logins. split_and!.
  - apply NoDup_app. split_and!.
    + exact Hwf.
    + intros login Hin [_ Hnone]%sorted_elem%never_active_users_elem.
      by apply dict_get_None in Hnone.
    + apply sorted_NoDup.
  - intros login. rewrite elem_of_app, sorted_elem, never_active_users_elem,
      dict_mem_keys, dict_get_None.
    destruct (decide (login ∈ Dict.keys (map o_entry obs))); tauto.
  - apply Forall_app. split; apply Forall_forall; intros r Hin.
    + apply list_elem_of_fmap in Hin as (o & -> & _). done.
    + apply list_elem_of_fmap in Hin as (u & -> & _). done.
Qed.

Lemma report_lists_every_login_once_witness :
  exists rows,
    write_report "report.csv" (mk_datetime 2024 1 15 12 0 0 0)
      [("alice", "2024-01-10T00:00:00Z"); ("mallory", "2024-02-01T09:30:00+02:00")]
      (never_active_users ["alice"; "bob"]
         [("alice", "2024-01-10T00:00:00Z"); ("mallory", "2024-02-01T09:30:00+02:00")])
      [] initial_world
    = (Return tt, ([], with_file initial_world "report.csv" (header :: rows)))
    /\ NoDup (map (hd ""%string) rows)
    /\ (forall login,
          login ∈ map (hd ""%string) rows
          <-> login ∈ ["alice"; "bob"]
              \/ Dict.mem [("alice", "2024-01-10T00:00:00Z");
                           ("mallory", "2024-02-01T09:30:00+02:00")] login = true)
    /\ Forall (fun r : row => length r = 3%nat) rows.
Proof.
  assert (Forall o_valid
            [ {| o_login := "alice"; o_year := 2024; o_month := 1; o_day := 10;
                 o_hour := 0; o_minute := 0; o_second := 0; o_suffix := "Z" |};
              {| o_login := "mallory"; o_year := 2024; o_month := 2; o_day := 1;
                 o_hour := 9; o_minute := 30; o_second := 0; o_suffix := "+02:00" |} ])
    as Hvalid.
  { repeat constructor; vm_compute; intros; discriminate. }
  refine (report_lists_every_login_once "report.csv" (mk_datetime 2024 1 15 12 0 0 0)
            _ ["alice"; "bob"] [] initial_world Hvalid _).
  unfold Dict.wf. apply (bool_decide_unpack _). vm_compute. exact I.
Defined.

(** ** The name of the report (line 214) *)

Lemma string_length_app (a b : string) :
  String.length (a ++ b) = (String.length a + String.length b)%nat.
Proof.
  induction a as [|c a IH]; [done|].
  change (S (String.length (a ++ b)) = S (String.length a + String.length b)).
  by rewrite IH.
Qed.

Lemma string_app_inj_length (a b x y : string) :
  (a ++ x = b ++ y)%string -> String.length x = String.length y -> a = b /\ x = y.
Proof.
  revert b. induction a as [|c a IH]; intros [|c' b] H Hlen.
  - done.
  - change (x = String c' (b ++ y)) in H. subst x.
    change (S (String.length (b ++ y)) = String.length y) in Hlen.
    rewrite string_length_app in Hlen. lia.
  - change (String c (a ++ x) = y) in H. subst y.
    change (String.length x = S (String.length (a ++ x))) in Hlen.
    rewrite string_length_app in Hlen. lia.
  - change (String c (a ++ x) = String c' (b ++ y)) in H.
    injection H as -> H. by destruct (IH b H Hlen) as [-> ->].
Qed.

Lemma dec_app_inj (width : nat) (a b : Z) (r1 r2 : string) :
  (0 <= a < 10 ^ Z.of_nat width)%Z -> (0 <= b < 10 ^ Z.of_nat width)%Z ->
  (dec width a ++ r1 = dec width b ++ r2)%string -> a = b /\ r1 = r2.
Proof.
  intros Ha Hb H.
  assert (String.compare (dec width a ++ r1) (dec width b ++ r2) = Eq) as Hc
    by (rewrite H; apply string_compare_refl).
  rewrite compare_dec in Hc by done.
  destruct (a ?= b)%Z eqn:E; try done.
  split; [by apply Z.compare_eq | by apply String.compare_eq_iff].
Qed.

(** X13.  Two reports get the same file name exactly when they are for the
    same organization and are named within the same second: the name tells
    organizations apart whatever characters their names hold, and tells
    moments apart down to the second and no further. *)
Theorem report_filename_collides_within_a_second (org1 org2 : string)
    (stamp1 stamp2 : datetime) :
  valid_fields (year stamp1) (month stamp1) (day stamp1)
               (hour stamp1) (minute stamp1) (second stamp1) ->
  valid_fields (year stamp2) (month stamp2) (day stamp2)
               (hour stamp2) (minute stamp2) (second stamp2) ->
  report_filename org1 stamp1 = report_filename org2 stamp2
  <-> org1 = org2
      /\ year stamp1 = year stamp2 /\ month stamp1 = month stamp2
      /\ day stamp1 = day stamp2 /\ hour stamp1 = hour stamp2
      /\ minute stamp1 = minute stamp2 /\ second stamp1 = second stamp2.
Proof.
  intros (Hy1 & Hm1 & Hd1 & HH1 & HM1 & HS1) (Hy2 & Hm2 & Hd2 & HH2 & HM2 & HS2).
  pose proof (days_in_month_le_31 (year stamp1) (month stamp1)) as Hdim1.
  pose proof (days_in_month_le_31 (year stamp2) (month stamp2)) as Hdim2.
  unfold report_filename. split.
  - intros H. apply (inj (String.app _)) in H.
    apply string_app_inj_length in H as [-> H]; [|reflexivity].
    split; [done|].
    apply (inj (String.app _)) in H. unfold strftime_stamp in H.
    rewrite !string_app_assoc in H.
    apply dec_app_inj in H as [-> H]; [|simpl; lia..].
    apply dec_app_inj in H as [-> H]; [|simpl; lia..].
    apply dec_app_inj in H as [-> H]; [|simpl; lia..].
    apply (inj (String.app _)) in H.
    apply dec_app_inj in H as [-> H]; [|simpl; lia..].
    apply dec_app_inj in H as [-> H]; [|simpl; lia..].
    apply dec_app_inj in H as [-> H]; [|simpl; lia..].
    done.
  - intros (-> & Ey & Em & Ed & EH & EM & ES). unfold strftime_stamp.
    by rewrite Ey, Em, Ed, EH, EM, ES.
Qed.

Lemma report_filename_collides_within_a_second_witness :
  report_filename "acme" (mk_datetime 2024 3 1 12 0 0 250000)
  = report_filename "acme" (mk_datetime 2024 3 1 12 0 0 750000).
Proof.
  apply (report_filename_collides_within_a_second "acme" "acme"
           (mk_datetime 2024 3 1 12 0 0 250000) (mk_datetime 2024 3 1 12 0 0 750000)).
  - vm_compute. repeat split; discriminate.
  - vm_compute. repeat split; discriminate.
  - done.
Defined.

(** ** The latest timestamp and the classification (lines 116-117, 222) *)

Lemma lex_compare_refl (xs : list Z) : lex_compare xs xs = Eq.
Proof. induction xs as [|x xs IH]; [done|]. simpl. by rewrite Z.compare_refl. Qed.

Lemma lex_compare_antisym (xs ys : list Z) :
  lex_compare ys xs = CompOpp (lex_compare xs ys).
Proof.
  revert ys. induction xs as [|x xs IH]; intros [|y ys]; try done.
  simpl. rewrite (Z.compare_antisym x y). destruct (x ?= y)%Z; simpl; [apply IH|done..].
Qed.

Lemma lex_compare_trans (xs ys zs : list Z) :
  lex_compare xs ys <> Lt -> lex_compare ys zs <> Lt -> lex_compare xs zs <> Lt.
Proof.
  revert ys zs. induction xs as [|x xs IH]; intros [|y ys] [|z zs]; try done.
  simpl.
  destruct (Z.compare_spec x y), (Z.compare_spec y z), (Z.compare_spec x z);
    try done; try lia.
  apply IH.
Qed.

Lemma datetime_ge_refl (a : datetime) : datetime_ge a a = true.
Proof. unfold datetime_ge. by rewrite lex_compare_refl. Qed.

Lemma datetime_ge_total (a b : datetime) :
  datetime_ge a b = false -> datetime_ge b a = true.
Proof.
  unfold datetime_ge. rewrite (lex_compare_antisym (fields a) (fields b)).
  by destruct (lex_compare (fields a) (fields b)).
Qed.

Lemma datetime_ge_trans (a b c : datetime) :
  datetime_ge a b = true -> datetime_ge b c = true -> datetime_ge a c = true.
Proof.
  unfold datetime_ge. intros Hab Hbc.
  pose proof (lex_compare_trans (fields a) (fields b) (fields c)) as Htrans.
  destruct (lex_compare (fields a) (fields b)); try done;
    destruct (lex_compare (fields b) (fields c)); try done;
    destruct (lex_compare (fields a) (fields c)); try done;
    exfalso; by apply Htrans.
Qed.

(** X14.  For timestamps that are well formed and end alike, keeping the
    latest string keeps the latest moment: after a further event of a login,
    the mapping holds for it the timestamp of the old entry or of the event,
    whichever is the later date and time, so an event can turn the [false]
    of the report into [true] and never a [true] into [false]. *)
Theorem keep_latest_keeps_the_later_moment (activity : dict string)
    (old event : observed) (since_date : datetime) :
  o_valid old -> o_valid event ->
  o_login event = o_login old -> o_suffix event = o_suffix old ->
  Dict.get activity (o_login old) = Some (o_timestamp old) ->
  exists kept,
    (kept = old \/ kept = event)
    /\ Dict.get (keep_latest activity (o_login event) (o_timestamp event)) (o_login old)
       = Some (o_timestamp kept)
    /\ datetime_ge (o_datetime kept) (o_datetime old) = true
    /\ datetime_ge (o_datetime kept) (o_datetime event) = true
    /\ (datetime_ge (o_datetime old) since_date = true ->
        datetime_ge (o_datetime kept) since_date = true)
    /\ (datetime_ge (o_datetime event) since_date = true ->
        datetime_ge (o_datetime kept) since_date = true).
Proof.
  intros Hold Hevent Hlogin Hsuffix Hget.
  rewrite keep_latest_get, Hlogin, String.eqb_refl, Hget. simpl. unfold str_max.
  unfold o_timestamp at 1 2. rewrite Hsuffix, timestamp_order by done.
  fold (o_datetime old). fold (o_datetime event).
  destruct (datetime_ge (o_datetime old) (o_datetime event)) eqn:E; simpl.
  - exists old. split_and!; auto using datetime_ge_refl.
    intros Hs. by apply (datetime_ge_trans _ (o_datetime event)).
  - apply datetime_ge_total in E. exists event.
    split_and!; auto using datetime_ge_refl.
    intros Hs. by apply (datetime_ge_trans _ (o_datetime old)).
Qed.

Lemma keep_latest_keeps_the_later_moment_witness :
  exists kept,
    Dict.get (keep_latest [("alice", "2024-02-01T08:00:00Z")] "alice"
                          "2024-01-10T00:00:00Z") "alice"
    = Some (o_timestamp kept)
    /\ datetime_ge (o_datetime kept) (mk_datetime 2024 2 1 8 0 0 0) = true
    /\ datetime_ge (o_datetime kept) (mk_datetime 2024 1 10 0 0 0 0) = true.
Proof.
  destruct (keep_latest_keeps_the_later_moment
              [("alice", "2024-02-01T08:00:00Z")]
              {| o_login := "alice"; o_year := 2024; o_month := 2; o_day := 1;
                 o_hour := 8; o_minute := 0; o_second := 0; o_suffix := "Z" |}
              {| o_login := "alice"; o_year := 2024; o_month := 1; o_day := 10;
                 o_hour := 0; o_minute := 0; o_second := 0; o_suffix := "Z" |}
              (mk_datetime 2024 1 15 12 0 0 0))
    as (kept & _ & Hget & Hold & Hevent & _).
  - vm_compute. repeat split; discriminate.
  - vm_compute. repeat split; discriminate.
  - reflexivity.
  - reflexivity.
  - reflexivity.
  - exists kept. by split_and!.
Defined.

(** ** A cutoff outside the calendar (lines 177-180) *)

Lemma minus_days_raises (t : datetime) (n : Z) (e : exn) :
  minus_days t n = Raise e -> e = OverflowError.
Proof.
  unfold minus_days. destruct (_ || _); [congruence|].
  by destruct (ord2ymd _) as [[y m] d].
Qed.

(** X15.  The cutoff is computed outside every [try]: when the threshold
    takes it out of the years 1 to 9999, the [OverflowError] of line 179
    leaves [main] right after the repositories of the organization have been
    listed and counted.  No repository is visited, no member is fetched, no
    file is written, and the organizations that follow are not processed. *)
Theorem cutoff_outside_the_calendar_escapes_main (DAYS_INACTIVE_THRESHOLD : Z)
    (clock : nat -> datetime) (org : string) (orgs : list string)
    (script : list response) (w : world)
    (repos : list string) (script1 : list response) (w1 : world) (e : exn) :
  get_repositories_for_org org script (printed w [Msg_fetching_repos org])
  = (Return repos, (script1, w1)) ->
  minus_days (clock (w_clock w1)) DAYS_INACTIVE_THRESHOLD = Raise e ->
  e = OverflowError
  /\ main (org :: orgs) DAYS_INACTIVE_THRESHOLD clock script w
     = (Raise OverflowError,
        (script1, ticked (printed w1 [Msg_total_repos org (length repos)])))
  /\ w_files (ticked (printed w1 [Msg_total_repos org (length repos)])) = w_files w1
  /\ w_calls (ticked (printed w1 [Msg_total_repos org (length repos)])) = w_calls w1.
Proof.
  intros Hrepos Hsince. pose proof (minus_days_raises _ _ _ Hsince) as ->.
  split; [done|]. split; [|done].
  cbn [main for_each]. unfold bind at 1.
  unfold process_org, bind at 1. rewrite print_printed.
  unfold bind at 1, try_except, bind at 1. rewrite Hrepos.
  unfold ret at 1. unfold bind at 1. rewrite print_printed.
  unfold bind at 1, now. cbn [w_clock printed].
  unfold bind at 1, lift. rewrite Hsince. done.
Qed.

Lemma cutoff_outside_the_calendar_escapes_main_witness :
  run (main ["acme"; "beta"] 1000000 (fun _ => mk_datetime 2024 3 1 12 0 0 0))
      [repositories_data (final (["x"], None)); refs_data (final (["main"], None))]
  = (Raise OverflowError,
     ([refs_data (final (["main"], None))],
      {| w_calls := [ {| req_query := Q_repositories;
                         req_variables := repositories_vars "acme" None |} ];
         w_out := [Msg_fetching_repos "acme"; Msg_total_repos "acme" 1];
         w_files := [];
         w_clock := 1;
         w_slept := 0 |})).
Proof.
  exact (proj1 (proj2
    (cutoff_outside_the_calendar_escapes_main 1000000
       (fun _ => mk_datetime 2024 3 1 12 0 0 0) "acme" ["beta"]
       [repositories_data (final (["x"], None)); refs_data (final (["main"], None))]
       initial_world ["x"] [refs_data (final (["main"], None))] _ OverflowError
       eq_refl eq_refl))).
Defined.

(** ** The time spent sleeping (lines 185-207) *)

Lemma pauses_ret {A} (a : A) : pauses 0 (ret a).
Proof. intros script w. simpl. lia. Qed.

Lemma pauses_print (m : msg) : pauses 0 (print m).
Proof. intros script w. simpl. lia. Qed.

Lemma pauses_sleep (seconds : Z) : (0 <= seconds)%Z -> pauses seconds (sleep seconds).
Proof. intros Hs script w. simpl. lia. Qed.

Lemma pauses_bind {A B} (a b : Z) (m : M A) (k : A -> M B) :
  (0 <= b)%Z -> pauses a m -> (forall x, pauses b (k x)) -> pauses (a + b) (bind m k).
Proof.
  intros Hb Hm Hk script w. unfold bind. specialize (Hm script w).
  destruct (m script w) as [[x|e] [s1 w1]]; simpl in Hm.
  - specialize (Hk x s1 w1). lia.
  - simpl. lia.
Qed.

Lemma pauses_try_except {A} (a b : Z) (m : M A) (handler : exn -> M A) :
  (0 <= b)%Z -> pauses a m -> (forall e, pauses b (handler e)) ->
  pauses (a + b) (try_except m handler).
Proof.
  intros Hb Hm Hh script w. unfold try_except. specialize (Hm script w).
  destruct (m script w) as [[x|e] [s1 w1]]; simpl in Hm.
  - simpl. lia.
  - specialize (Hh e s1 w1). lia.
Qed.

Lemma pauses_for_each {X S} (xs : list X) (body : X -> S -> M S) (s : S) :
  (forall x s', pauses 0 (body x s')) -> pauses 0 (for_each xs body s).
Proof.
  intros Hbody. revert s. induction xs as [|x xs IH]; intros s; simpl.
  - apply pauses_ret.
  - apply (pauses_bind 0 0); [lia | apply Hbody | apply IH].
Qed.

Lemma respond_slept (r : response) (w : world) : w_slept (respond r w).2 = w_slept w.
Proof. by destruct r. Qed.

Lemma pauses_while_has_next {A} q variables (body : data -> A -> pass A) cursor acc :
  pauses 0 (while_has_next q variables body cursor acc).
Proof.
  intros script. revert cursor acc.
  induction script as [|r rest IH]; intros cursor acc w; simpl; [lia|].
  pose proof (respond_slept r
    (record_call {| req_query := q; req_variables := variables cursor |} w)) as Hs.
  destruct (respond r _) as [[d|e] w1]; simpl in Hs.
  - destruct (body d acc) as [acc' cursor' [|]| |]; simpl; try lia.
    specialize (IH cursor' acc' w1). lia.
  - simpl. lia.
Qed.

Lemma pauses_collect_branch_activity org repo branch since_iso :
  pauses 0 (collect_branch_activity org repo branch since_iso).
Proof.
  unfold collect_branch_activity.
  apply (pauses_bind 0 0); [lia | apply pauses_while_has_next|]. intros activity.
  apply (pauses_bind 0 0); [lia | apply pauses_while_has_next|]. intros activity'.
  apply pauses_while_has_next.
Qed.

Lemma pauses_process_branch org repo since_iso br overall_activity :
  pauses 0 (process_branch org repo since_iso br overall_activity).
Proof.
  unfold process_branch.
  apply (pauses_bind 0 0); [lia | apply pauses_print|]. intros _.
  apply (pauses_try_except 0 0); [lia | |].
  - apply (pauses_bind 0 0); [lia | apply pauses_collect_branch_activity|].
    intros act. apply pauses_ret.
  - intros e. apply (pauses_bind 0 0); [lia | apply pauses_print|]. intros _.
    apply pauses_ret.
Qed.

Lemma pauses_pause_check (repo_counter : nat) :
  pauses (if (repo_counter mod 100 =? 0)%nat then 2 else 0) (pause_check repo_counter).
Proof.
  unfold pause_check. destruct (_ =? _)%nat; [|apply pauses_ret].
  apply (pauses_bind 0 2); [lia | apply pauses_print|]. intros _.
  by apply pauses_sleep.
Qed.

Lemma pauses_process_repo org since_iso total repo overall_activity repo_counter :
  pauses (if (S repo_counter mod 100 =? 0)%nat then 2 else 0)
         (process_repo org since_iso total repo (overall_activity, repo_counter)).
Proof.
  unfold process_repo.
  apply (pauses_bind 0 _); [by destruct (_ =? _)%nat | apply pauses_print|]. intros _.
  apply (pauses_bind 0 _); [by destruct (_ =? _)%nat | |].
  - apply (pauses_try_except 0 0); [lia | |].
    + apply (pauses_bind 0 0); [lia | apply pauses_while_has_next|].
      intros [|b branches].
      * apply (pauses_bind 0 0); [lia | apply pauses_print|]. intros _.
        apply pauses_ret.
      * apply (pauses_bind 0 0); [lia | | intros; apply pauses_ret].
        apply pauses_for_each. intros. apply pauses_process_branch.
    + intros e. apply (pauses_bind 0 0); [lia | apply pauses_print|]. intros _.
      apply pauses_ret.
  - intros [overall_activity' [|]].
    + intros script w. simpl. destruct (_ =? _)%nat; lia.
    + replace (if (S repo_counter mod 100 =? 0)%nat then 2 else 0)%Z
        with ((if (S repo_counter mod 100 =? 0)%nat then 2 else 0) + 0)%Z by lia.
      apply pauses_bind; [lia | apply pauses_pause_check | intros; apply pauses_ret].
Qed.

(** X16.  Whatever the endpoint answers, the loop over the repositories
    sleeps only in its periodic pause: the time slept never decreases, and
    grows by at most two seconds for every repository whose number is a
    multiple of one hundred; the fetches, the merges and the handlers of the
    errors never sleep. *)
Theorem repositories_loop_sleeps_at_most (org since_iso : string) (total : nat)
    (repos : list string) (overall_activity : dict string) (repo_counter : nat) :
  pauses (2 * Z.of_nat ((repo_counter + length repos) / 100 - repo_counter / 100))
         (for_each repos (process_repo org since_iso total)
                   (overall_activity, repo_counter)).
Proof.
  revert overall_activity repo_counter.
  induction repos as [|repo repos IH]; intros overall_activity c script w.
  - simpl. rewrite Nat.add_0_r, Nat.sub_diag. lia.
  - cbn [for_each length]. unfold bind.
    pose proof (pauses_process_repo org since_iso total repo overall_activity c script w)
      as Hrepo.
    destruct (process_repo_keeps org since_iso total repo overall_activity c script w)
      as ([d1 c1] & s1 & w1 & E & _ & Hc).
    rewrite E in Hrepo |- *. cbn [fst snd] in Hrepo, Hc. subst c1.
    specialize (IH d1 (S c) s1 w1).
    replace (c + S (length repos))%nat with (S c + length repos)%nat by lia.
    pose proof (hundreds_step c) as Hstep.
    pose proof (Nat.Div0.div_le_mono (S c) (S c + length repos) 100 ltac:(lia)).
    destruct (S c mod 100 =? 0)%nat; lia.
Qed.
